(** * video-culler: clip analysis and FCPXML export

    Shallow embedding of the Electron main-process handlers
    ([analysisHandlers.ts], [exportHandlers.ts], [clipHandlers.ts]) and of
    the shared types ([shared/types.ts]), with the properties of the
    analysis pipeline and of the timeline serializer stated over it.

    Conventions of the embedding.
    - A JavaScript [number] is an extended rational: the arithmetic of the
      source is carried out exactly, with the two infinities and NaN kept
      as separate values.  Rounding of IEEE doubles and the sign of zero
      are not represented.
    - A JavaScript string is a [string] holding its UTF-8 bytes; only
      well-formed Unicode text is represented.
    - Promises are run to completion in program order; rejection is the
      [Throw] outcome of the effect monad.
    - What lies outside the repository (ffmpeg, sharp, the save dialog, the
      disk, the printing of numbers) is a parameter of the definitions that
      use it. *)

From Stdlib Require Import List ZArith QArith Qround Qabs Lia Lqa Bool.
From Stdlib Require Import Strings.String Strings.Ascii Strings.Byte.
From Stdlib Require Import Numbers.DecimalString.
From Stdlib Require Import Numbers.DecimalNat Sorting.Sorted Sorting.Permutation.
Import ListNotations.

Set Implicit Arguments.

(** ** JavaScript numbers *)

Inductive number : Type :=
| Num (q : Q)
| PInf
| NInf
| NaN.

Module JS.

Definition of_Z (z : Z) : number := Num (inject_Z z).
Definition of_nat (n : nat) : number := of_Z (Z.of_nat n).

Definition neg (a : number) : number :=
  match a with
  | Num x => Num (- x)
  | PInf => NInf
  | NInf => PInf
  | NaN => NaN
  end.

(** [a + b] *)
Definition add (a b : number) : number :=
  match a, b with
  | NaN, _ | _, NaN => NaN
  | Num x, Num y => Num (x + y)
  | PInf, NInf | NInf, PInf => NaN
  | PInf, _ | _, PInf => PInf
  | NInf, _ | _, NInf => NInf
  end.

(** [a - b] *)
Definition sub (a b : number) : number := add a (neg b).

(** [a * b] *)
Definition mul (a b : number) : number :=
  match a, b with
  | NaN, _ | _, NaN => NaN
  | Num x, Num y => Num (x * y)
  | Num x, PInf | PInf, Num x =>
      match x ?= 0 with Eq => NaN | Gt => PInf | Lt => NInf end
  | Num x, NInf | NInf, Num x =>
      match x ?= 0 with Eq => NaN | Gt => NInf | Lt => PInf end
  | PInf, PInf | NInf, NInf => PInf
  | PInf, NInf | NInf, PInf => NInf
  end.

(** [a / b]; a zero divisor is the positive zero. *)
Definition div (a b : number) : number :=
  match a, b with
  | NaN, _ | _, NaN => NaN
  | Num x, Num y =>
      match y ?= 0 with
      | Eq => match x ?= 0 with Eq => NaN | Gt => PInf | Lt => NInf end
      | _ => Num (x / y)
      end
  | Num _, (PInf | NInf) => Num 0
  | PInf, Num y => match y ?= 0 with Lt => NInf | _ => PInf end
  | NInf, Num y => match y ?= 0 with Lt => PInf | _ => NInf end
  | (PInf | NInf), (PInf | NInf) => NaN
  end.

(** [Math.abs] *)
Definition Math_abs (a : number) : number :=
  match a with
  | Num x => Num (Qabs x)
  | PInf | NInf => PInf
  | NaN => NaN
  end.

(** [Math.min] of two arguments *)
Definition Math_min (a b : number) : number :=
  match a, b with
  | NaN, _ | _, NaN => NaN
  | NInf, _ | _, NInf => NInf
  | PInf, y => y
  | x, PInf => x
  | Num x, Num y => if Qle_bool x y then Num x else Num y
  end.

(** [Math.pow(a, 2)] *)
Definition Math_pow2 (a : number) : number := mul a a.

(** [Math.round]: the integer nearest to the argument, a tie going up. *)
Definition Math_round (a : number) : number :=
  match a with
  | Num x => of_Z (Qfloor (x + (1 # 2)))
  | other => other
  end.

(** [Array.prototype.reduce] with an initial value. *)
Definition reduce {A B : Type} (f : B -> A -> B) (init : B) (l : list A) : B :=
  fold_left f l init.

End JS.

(** ** Focus scoring ([analysisHandlers.ts], calculateFocusScore) *)

(** The decoded image: [data] is the raw buffer, one byte per sample. *)
Record RawImage : Type := {
  data : list byte;
  width : Z;
  height : Z
}.

(** [data[idx]]: the sample as a number; an index outside the buffer reads
    [undefined], which the arithmetic applied to it turns into NaN. *)
Definition buffer_at (data : list byte) (idx : Z) : number :=
  if (idx <? 0)%Z then NaN
  else match nth_error data (Z.to_nat idx) with
       | Some b => JS.of_Z (Z.of_N (Byte.to_N b))
       | None => NaN
       end.

(** The integers [lo], [lo+1], ..., [hi-1]: the values taken by the counter
    of [for (let k = lo; k < hi; k++)]. *)
Definition for_range (lo hi : Z) : list Z :=
  map (fun k => (lo + Z.of_nat k)%Z) (seq 0 (Z.to_nat (hi - lo))).

(** Body of the inner loop: the value pushed for pixel [(x, y)]. *)
Definition lap_at (data : list byte) (width x y : Z) : number :=
  let idx := (y * width + x)%Z in
  let center := buffer_at data idx in
  let top := buffer_at data ((y - 1) * width + x) in
  let bottom := buffer_at data ((y + 1) * width + x) in
  let left := buffer_at data (y * width + (x - 1)) in
  let right := buffer_at data (y * width + (x + 1)) in
  JS.Math_abs
    (JS.add (JS.add (JS.add (JS.add (JS.mul (JS.of_Z (-4)) center) top) bottom) left) right).

(** The array [laplacian] once both loops have finished. *)
Definition laplacian_of (data : list byte) (width height : Z) : list number :=
  flat_map (fun y => map (fun x => lap_at data width x y) (for_range 1 (width - 1)))
           (for_range 1 (height - 1)).

Definition mean_of (laplacian : list number) : number :=
  JS.div (JS.reduce (fun sum val => JS.add sum val) (JS.of_Z 0) laplacian)
         (JS.of_nat (List.length laplacian)).

Definition variance_of (laplacian : list number) : number :=
  let mean := mean_of laplacian in
  JS.div (JS.reduce (fun sum val => JS.add sum (JS.Math_pow2 (JS.sub val mean)))
                    (JS.of_Z 0) laplacian)
         (JS.of_nat (List.length laplacian)).

(** The part of [calculateFocusScore] after the image has been decoded. *)
Definition focusScoreOf (image : RawImage) : number :=
  let laplacian := laplacian_of (data image) (width image) (height image) in
  let variance := variance_of laplacian in
  let score := JS.Math_min (JS.of_Z 100)
                           (JS.mul (JS.div variance (JS.of_Z 100)) (JS.of_Z 100)) in
  score.


(** ** Shared types ([shared/types.ts]) *)

Module VideoFile.
Record t : Type := {
  id : string;
  path : string;
  filename : string;
  directory : string;
  duration : number;
  width : number;
  height : number;
  fps : number;
  codec : string;
  thumbnail : option string
}.
End VideoFile.

(** [VideoClip extends VideoFile]: the fields of [VideoFile] followed by the
    clip's own; an optional field that is absent is [None]. *)
Module VideoClip.
Record t : Type := {
  id : string;
  path : string;
  filename : string;
  directory : string;
  duration : number;
  width : number;
  height : number;
  fps : number;
  codec : string;
  thumbnail : option string;
  focusScore : number;
  compositionScore : option number;
  audioScore : option number;
  overallScore : number;
  selected : bool;
  inPoint : number;
  outPoint : number;
  category : option string
}.
End VideoClip.

Module AnalysisProgress.
Inductive stage_t : Type := scanning | extracting | analyzing | complete | error.

Record t : Type := {
  stage : stage_t;
  current : nat;
  total : nat;
  currentFile : option string;
  message : option string
}.
End AnalysisProgress.

(** ** Outcomes and observable effects *)

(** Outcome of an awaited operation: a value, or a thrown error, which is
    represented by its message. *)
Inductive Result (A : Type) : Type :=
| Ok (a : A)
| Throw (error : string).

Arguments Ok {A} a.
Arguments Throw {A} error.

(** What the main process does to the outside, in the order it does it. *)
Inductive Effect : Type :=
| Sent (progress : AnalysisProgress.t)    (* sender.send(ANALYSIS_PROGRESS, progress) *)
| MadeTempDir                             (* mkdtemp created a directory *)
| RanFfmpeg (videoPath : string)          (* the extraction command was run *)
| ConsoleError (text error : string).     (* console.error(text, error) *)

(** A frame file: [join(outputDir, f)], kept as the directory and the name.
    A temporary directory is named by its rank of creation. *)
Record FramePath : Type := { dir : nat; name : string }.

(** What one run of the extraction command does: the files it leaves in the
    output directory, and the error of its 'error' event, if that is the
    event it ends with. *)
Record Extraction (Blob : Type) : Type := {
  written : list (string * Blob);
  failure : option string
}.

(** [Array.prototype.sort] without comparator, on strings: ascending order of
    code units, by insertion. *)
Fixpoint sort_insert (s : string) (sorted : list string) : list string :=
  match sorted with
  | [] => [s]
  | t :: rest => if String.leb s t then s :: sorted else t :: sort_insert s rest
  end.

Definition sort (l : list string) : list string :=
  fold_right sort_insert [] l.

Section Analysis.

(** The collaborators outside the repository: the contents of files, the
    frame extraction of ffmpeg, and the two sharp pipelines. *)
Variable Blob : Type.
Variable ffmpeg_extract : string -> number -> Extraction Blob.
Variable sharp_grayscale_raw : Blob -> Result RawImage.
Variable sharp_resize_jpeg_base64 : option Blob -> Result string.

(** The state outside the handler's local variables: the temporary
    directories ever created (a removed one is [None]), whether the
    temporary area accepts a new directory, the effects so far, and the
    module-level [clips] of [clipHandlers.ts]. *)
Record World : Type := {
  tempdirs : list (option (list (string * Blob)));
  tmp_writable : bool;
  trace : list Effect;
  clips : list VideoClip.t
}.

Definition M (A : Type) : Type := World -> Result A * World.

Definition ret {A : Type} (a : A) : M A := fun w => (Ok a, w).

Definition bind {A B : Type} (m : M A) (k : A -> M B) : M B :=
  fun w => match m w with
           | (Ok a, w') => k a w'
           | (Throw e, w') => (Throw e, w')
           end.

Definition throw {A : Type} (e : string) : M A := fun w => (Throw e, w).

(** [try { body } catch (error) { handler }] *)
Definition try_catch {A : Type} (body : M A) (handler : string -> M A) : M A :=
  fun w => match body w with
           | (Ok a, w') => (Ok a, w')
           | (Throw e, w') => handler e w'
           end.

Definition lift {A : Type} (r : Result A) : M A := fun w => (r, w).

Definition emit (e : Effect) : M unit :=
  fun w => (Ok tt, {| tempdirs := tempdirs w; tmp_writable := tmp_writable w;
                      trace := trace w ++ [e]; clips := clips w |}).

Local Notation "x <- c ;; k" := (bind c (fun x => k))
  (at level 61, c at next level, right associativity).
Local Notation "c ;;; k" := (bind c (fun _ => k))
  (at level 61, right associativity).

(** [Promise.all] over an array of operations started in index order.  The
    operations it is used on only read the state, so that running them one
    after the other, up to the first that fails, gives the outcome of
    running them together. *)
Fixpoint Promise_all {A : Type} (ops : list (M A)) : M (list A) :=
  match ops with
  | [] => ret []
  | op :: rest =>
      a <- op ;;
      others <- Promise_all rest ;;
      ret (a :: others)
  end.

(** *** File system *)

(** [mkdtemp(join(tmpdir(), 'video-culler-'))] *)
Definition mkdtemp : M nat :=
  fun w =>
    if tmp_writable w then
      (Ok (List.length (tempdirs w)),
       {| tempdirs := tempdirs w ++ [Some []]; tmp_writable := tmp_writable w;
          trace := trace w ++ [MadeTempDir]; clips := clips w |})
    else (Throw "EACCES: permission denied, mkdtemp", w).

Definition lookup_dir (w : World) (d : nat) : option (list (string * Blob)) :=
  match nth_error (tempdirs w) d with
  | Some (Some entries) => Some entries
  | _ => None
  end.

Fixpoint set_nth {A : Type} (l : list A) (n : nat) (a : A) : list A :=
  match l, n with
  | [], _ => []
  | _ :: rest, O => a :: rest
  | x :: rest, S n' => x :: set_nth rest n' a
  end.

(** The extraction command writes its files into an existing directory. *)
Definition write_files (d : nat) (files : list (string * Blob)) : M unit :=
  fun w =>
    match lookup_dir w d with
    | Some entries =>
        (Ok tt, {| tempdirs := set_nth (tempdirs w) d (Some (entries ++ files));
                   tmp_writable := tmp_writable w;
                   trace := trace w; clips := clips w |})
    | None => (Ok tt, w)
    end.

(** [readdir(outputDir)] *)
Definition readdir (d : nat) : M (list string) :=
  fun w =>
    match lookup_dir w d with
    | Some entries => (Ok (map fst entries), w)
    | None => (Throw "ENOENT: no such file or directory, scandir", w)
    end.

Fixpoint assoc (key : string) (entries : list (string * Blob)) : option Blob :=
  match entries with
  | [] => None
  | (k, b) :: rest => if String.eqb k key then Some b else assoc key rest
  end.

(** Contents of the file a sharp pipeline is given as input. *)
Definition read_input (p : FramePath) : M Blob :=
  fun w =>
    match lookup_dir w (dir p) with
    | Some entries =>
        match assoc (name p) entries with
        | Some b => (Ok b, w)
        | None => (Throw "Input file is missing", w)
        end
    | None => (Throw "Input file is missing", w)
    end.

(** *** [analysisHandlers.ts] *)

(** [sender.send] is taken to deliver the event and return. *)
Definition sendProgress (progress : AnalysisProgress.t) : M unit :=
  emit (Sent progress).

(** The promise is rejected by the 'error' event of the command and
    resolved by its 'end' event with the frames listed in [outputDir].  (A
    failure of [readdir] in the 'end' callback is given here as a thrown
    error; it does not arise when [outputDir] exists, as it does in
    [analyzeVideo].) *)
Definition extractFrames (videoPath : string) (outputDir : nat) (interval : number)
  : M (list FramePath) :=
  let run := ffmpeg_extract videoPath interval in
  emit (RanFfmpeg videoPath) ;;;
  write_files outputDir (written run) ;;;
  match failure run with
  | Some error => throw error
  | None =>
      files <- readdir outputDir ;;
      let framePaths :=
        map (fun f => {| dir := outputDir; name := f |})
            (sort (filter (fun f => String.prefix "frame-" f) files)) in
      ret framePaths
  end.

Definition calculateFocusScore (imagePath : FramePath) : M number :=
  input <- read_input imagePath ;;
  image <- lift (sharp_grayscale_raw input) ;;
  ret (focusScoreOf image).

(** The argument is [frames[middleFrameIndex]]: a path, or [undefined]. *)
Definition generateThumbnail (imagePath : option FramePath) : M string :=
  input <- match imagePath with
           | Some p => (b <- read_input p ;; ret (Some b))
           | None => ret None
           end ;;
  buffer <- lift (sharp_resize_jpeg_base64 input) ;;
  ret ("data:image/jpeg;base64," ++ buffer)%string.

Definition analyzeVideo (video : VideoFile.t) : M VideoClip.t :=
  tempDir <- mkdtemp ;;
  frames <- extractFrames (VideoFile.path video) tempDir (JS.of_Z 1) ;;
  focusScores <- Promise_all (map (fun frame => calculateFocusScore frame) frames) ;;
  let avgFocusScore :=
    JS.div (JS.reduce (fun sum score => JS.add sum score) (JS.of_Z 0) focusScores)
           (JS.of_nat (List.length focusScores)) in
  let middleFrameIndex := Nat.div (List.length frames) 2 in
  thumbnail <- generateThumbnail (nth_error frames middleFrameIndex) ;;
  let overallScore := JS.Math_round avgFocusScore in
  ret {| VideoClip.id := VideoFile.id video;
         VideoClip.path := VideoFile.path video;
         VideoClip.filename := VideoFile.filename video;
         VideoClip.directory := VideoFile.directory video;
         VideoClip.duration := VideoFile.duration video;
         VideoClip.width := VideoFile.width video;
         VideoClip.height := VideoFile.height video;
         VideoClip.fps := VideoFile.fps video;
         VideoClip.codec := VideoFile.codec video;
         VideoClip.thumbnail := Some thumbnail;
         VideoClip.focusScore := overallScore;
         VideoClip.compositionScore := None;
         VideoClip.audioScore := None;
         VideoClip.overallScore := overallScore;
         VideoClip.selected := false;
         VideoClip.inPoint := JS.of_Z 0;
         VideoClip.outPoint := VideoFile.duration video;
         VideoClip.category := None |}.

(** [setClips] of [clipHandlers.ts] *)
Definition setClips (newClips : list VideoClip.t) : M unit :=
  fun w => (Ok tt, {| tempdirs := tempdirs w; tmp_writable := tmp_writable w;
                      trace := trace w; clips := newClips |}).

(** [getClips] of [clipHandlers.ts] *)
Definition getClips : M (list VideoClip.t) := fun w => (Ok (clips w), w).

(** The [for] loop of the ANALYZE_VIDEOS handler, from index [i] on:
    [remaining] is [videoFiles.slice(i)]. *)
Fixpoint analyze_from (remaining : list VideoFile.t) (i total : nat)
         (analyzedClips : list VideoClip.t) : M (list VideoClip.t) :=
  match remaining with
  | [] => ret analyzedClips
  | video :: rest =>
      sendProgress
        {| AnalysisProgress.stage := AnalysisProgress.analyzing;
           AnalysisProgress.current := i + 1;
           AnalysisProgress.total := total;
           AnalysisProgress.currentFile := Some (VideoFile.filename video);
           AnalysisProgress.message :=
             Some ("Analyzing " ++ VideoFile.filename video ++ "...")%string |} ;;;
      pushed <- try_catch
                  (clip <- analyzeVideo video ;;
                   ret (analyzedClips ++ [clip]))
                  (fun error =>
                     emit (ConsoleError
                             ("Failed to analyze " ++ VideoFile.filename video ++ ":")%string
                             error) ;;;
                     ret analyzedClips) ;;
      analyze_from rest (S i) total pushed
  end.

(** Handler of [IPC_CHANNELS.ANALYZE_VIDEOS]. *)
Definition analyzeVideos (videoFiles : list VideoFile.t) : M (list VideoClip.t) :=
  let total := List.length videoFiles in
  analyzedClips <- analyze_from videoFiles 0 total [] ;;
  sendProgress
    {| AnalysisProgress.stage := AnalysisProgress.complete;
       AnalysisProgress.current := total;
       AnalysisProgress.total := total;
       AnalysisProgress.currentFile := None;
       AnalysisProgress.message := Some "Analysis complete!"%string |} ;;;
  setClips analyzedClips ;;;
  ret analyzedClips.

End Analysis.

(** ** Strings of the serializer *)

(** The double quote and the line feed. *)
Definition dquote : string := String (ascii_of_nat 34) EmptyString.
Definition LF : string := String (ascii_of_nat 10) EmptyString.

(** A piece of a template literal, written with ['] where the source has a
    double quote (no template of the source contains [']). *)
Fixpoint tpl (s : string) : string :=
  match s with
  | EmptyString => EmptyString
  | String c rest =>
      String (if Ascii.eqb c "'"%char then ascii_of_nat 34 else c) (tpl rest)
  end.

(** [Array.prototype.join] *)
Definition join (sep : string) (parts : list string) : string :=
  String.concat sep parts.

(** *** [encodeURI]

    Every byte of the UTF-8 form of the string is kept when it is one of
    the characters [encodeURI] leaves alone (letters, digits and
    [; / ? : @ & = + $ , # - _ . ! ~ * ' ( )]) and is written [%XX]
    otherwise. *)
Definition uri_unescaped (c : ascii) : bool :=
  let n := nat_of_ascii c in
  ((65 <=? n) && (n <=? 90) || (97 <=? n) && (n <=? 122) || (48 <=? n) && (n <=? 57)
   || existsb (Ascii.eqb c)
        [";"; "/"; "?"; ":"; "@"; "&"; "="; "+"; "$"; ","; "#";
         "-"; "_"; "."; "!"; "~"; "*"; "'"; "("; ")"]%char)%nat.

Definition hex_digit (n : nat) : ascii :=
  if (n <? 10)%nat then ascii_of_nat (48 + n) else ascii_of_nat (55 + n).

Definition percent_encode (c : ascii) : string :=
  let n := nat_of_ascii c in
  String "%" (String (hex_digit (Nat.div n 16)) (String (hex_digit (Nat.modulo n 16)) EmptyString)).

Fixpoint encodeURI (s : string) : string :=
  match s with
  | EmptyString => EmptyString
  | String c rest =>
      if uri_unescaped c then String c (encodeURI rest)
      else (percent_encode c ++ encodeURI rest)%string
  end.

(** ** Values crossing the IPC boundary *)

#[warnings="-register-all"]
Inductive JSValue : Type :=
| JSUndefined
| JSBool (b : bool)
| JSNumber (n : number)
| JSString (s : string)
| JSObject (properties : list (string * JSValue)).

(** [object.key] *)
Fixpoint get (properties : list (string * JSValue)) (key : string) : JSValue :=
  match properties with
  | [] => JSUndefined
  | (k, v) :: rest => if String.eqb k key then v else get rest key
  end.

(** Whether a value counts as true in [!v] and [v || d]. *)
Definition truthy (v : JSValue) : bool :=
  match v with
  | JSUndefined => false
  | JSBool b => b
  | JSNumber (Num q) => negb (Qeq_bool q 0)
  | JSNumber NaN => false
  | JSNumber _ => true
  | JSString s => negb (String.eqb s "")
  | JSObject _ => true
  end.

(** [a || b] *)
Definition or_else (a b : JSValue) : JSValue := if truthy a then a else b.

(** ** Timeline export ([exportHandlers.ts]) *)

(** [Array.from(new Set(paths))]: the distinct strings in order of first
    occurrence. *)
Fixpoint uniq_from (seen : list string) (l : list string) : list string :=
  match l with
  | [] => []
  | s :: rest =>
      if existsb (String.eqb s) seen then uniq_from seen rest
      else s :: uniq_from (s :: seen) rest
  end.

Definition uniq (l : list string) : list string := uniq_from [] l.

(** [Array.prototype.indexOf] *)
Fixpoint indexOf_from (i : Z) (l : list string) (s : string) : Z :=
  match l with
  | [] => (-1)%Z
  | t :: rest => if String.eqb t s then i else indexOf_from (i + 1)%Z rest s
  end.

Definition indexOf (l : list string) (s : string) : Z := indexOf_from 0%Z l s.

(** What the save dialog resolves with. *)
Record SaveDialogReturnValue : Type := {
  canceled : bool;
  filePath : option string
}.

(** What the handler of EXPORT_TIMELINE resolves with. *)
Inductive ExportResult : Type :=
| ExportSuccess (path : string)        (* { success: true, path } *)
| ExportFailure (message : string).    (* { success: false, message } *)

(** The files written so far, most recent first, and the console. *)
Record Disk : Type := {
  files : list (string * string);
  console : list (string * string)
}.

Fixpoint file_at (files : list (string * string)) (path : string) : option string :=
  match files with
  | [] => None
  | (p, content) :: rest => if String.eqb p path then Some content else file_at rest path
  end.

Section ExportHandlers.

(** The conversion of a number to a string in a template literal. *)
Variable Number_toString : number -> string.

(** What the user answers to the save dialog opened on a default path, and
    the error, if any, with which writing to a path fails. *)
Variable showSaveDialog : string -> SaveDialogReturnValue.
Variable write_error : string -> option string.

(** The string that a template literal or a parameter typed [string] makes
    of a value. *)
Definition ToString (v : JSValue) : string :=
  match v with
  | JSUndefined => "undefined"
  | JSBool true => "true"
  | JSBool false => "false"
  | JSNumber n => Number_toString n
  | JSString s => s
  | JSObject _ => "[object Object]"
  end.

(** The [asset] line of the resource of rank [index]. *)
Definition asset_xml (index : nat) (path : string) (clip : VideoClip.t) : string :=
  (tpl "    <asset id='r" ++ Number_toString (JS.add (JS.of_nat index) (JS.of_Z 1))
   ++ tpl "' src='file://" ++ encodeURI path
   ++ tpl "' start='0s' duration='" ++ Number_toString (VideoClip.duration clip)
   ++ tpl "s' hasVideo='1' format='r0' hasAudio='1'/>")%string.

(** The [asset-clip] element of a clip placed at [currentOffset]. *)
Definition asset_clip_xml (uniqueFiles : list string) (currentOffset : number)
           (clip : VideoClip.t) : string :=
  let resourceId := JS.add (JS.of_Z (indexOf uniqueFiles (VideoClip.path clip))) (JS.of_Z 1) in
  let duration := JS.sub (VideoClip.outPoint clip) (VideoClip.inPoint clip) in
  let start := VideoClip.inPoint clip in
  (tpl "      <asset-clip ref='r" ++ Number_toString resourceId
   ++ tpl "' offset='" ++ Number_toString currentOffset
   ++ tpl "s' name='" ++ VideoClip.filename clip
   ++ tpl "' start='" ++ Number_toString start
   ++ tpl "s' duration='" ++ Number_toString duration ++ tpl "s'>" ++ LF
   ++ "        <note>Focus Score: " ++ Number_toString (VideoClip.focusScore clip)
   ++ "</note>" ++ LF
   ++ "      </asset-clip>")%string.

(** The document around the resources and the spine. *)
Definition fcpxml_document (projectName resources timelineClips : string)
           (currentOffset : number) : string :=
  join LF
    [ tpl "<?xml version='1.0' encoding='UTF-8'?>";
      "<!DOCTYPE fcpxml>";
      tpl "<fcpxml version='1.10'>";
      "  <resources>";
      tpl "    <format id='r0' name='FFVideoFormat1080p30' frameDuration='100/3000s' width='1920' height='1080' colorSpace='1-1-1 (Rec. 709)'/>";
      resources;
      "  </resources>";
      "  <library>";
      tpl "    <event name='Video Culler Import'>";
      (tpl "      <project name='" ++ projectName ++ tpl "'>");
      (tpl "        <sequence format='r0' tcStart='0s' tcFormat='NDF' duration='"
         ++ Number_toString currentOffset ++ tpl "s'>");
      "          <spine>";
      timelineClips;
      "          </spine>";
      "        </sequence>";
      "      </project>";
      "    </event>";
      "  </library>";
      "</fcpxml>" ]%string.

(** The callback of [uniqueFiles.map]: the clip is looked up by [find], and
    reading [duration] of a missing one throws. *)
Fixpoint resources_from (selectedClips : list VideoClip.t) (index : nat)
         (uniqueFiles : list string) : Result (list string) :=
  match uniqueFiles with
  | [] => Ok []
  | path :: rest =>
      match find (fun c => String.eqb (VideoClip.path c) path) selectedClips with
      | None => Throw "Cannot read properties of undefined (reading 'duration')"
      | Some clip =>
          match resources_from selectedClips (S index) rest with
          | Ok others => Ok (asset_xml index path clip :: others)
          | Throw e => Throw e
          end
      end
  end.

(** The callback of [selectedClips.map], which advances [currentOffset]:
    the elements produced and the final offset. *)
Fixpoint timelineClips_from (uniqueFiles : list string) (selectedClips : list VideoClip.t)
         (currentOffset : number) : list string * number :=
  match selectedClips with
  | [] => ([], currentOffset)
  | clip :: rest =>
      let duration := JS.sub (VideoClip.outPoint clip) (VideoClip.inPoint clip) in
      let clipXml := asset_clip_xml uniqueFiles currentOffset clip in
      let (others, final) :=
        timelineClips_from uniqueFiles rest (JS.add currentOffset duration) in
      (clipXml :: others, final)
  end.

Definition generateFCPXML (clips : list VideoClip.t) (projectName : string) : Result string :=
  let selectedClips := filter (fun c => VideoClip.selected c) clips in
  let uniqueFiles := uniq (map (fun c => VideoClip.path c) selectedClips) in
  match resources_from selectedClips 0 uniqueFiles with
  | Throw e => Throw e
  | Ok resourceLines =>
      let resources := join LF resourceLines in
      let (clipLines, currentOffset) :=
        timelineClips_from uniqueFiles selectedClips (JS.of_Z 0) in
      let timelineClips := join LF clipLines in
      Ok (fcpxml_document projectName resources timelineClips currentOffset)
  end.

(** [writeFile(path, xml, 'utf-8')] *)
Definition writeFile (path content : string) (disk : Disk) : Result unit * Disk :=
  match write_error path with
  | Some e => (Throw e, disk)
  | None => (Ok tt, {| files := (path, content) :: files disk; console := console disk |})
  end.

Definition console_error (text error : string) (disk : Disk) : Disk :=
  {| files := files disk; console := console disk ++ [(text, error)] |}.

(** Handler of [IPC_CHANNELS.EXPORT_TIMELINE].  A caught error is an
    [Error], and the message returned is its message. *)
Definition exportTimeline (clips : list VideoClip.t) (options : list (string * JSValue))
           (disk : Disk) : ExportResult * Disk :=
  let result :=
    showSaveDialog
      (ToString (or_else (get options "projectName") (JSString "timeline")) ++ ".fcpxml")%string in
  match canceled result, filePath result with
  | true, _ | _, None => (ExportFailure "Export cancelled", disk)
  | false, Some path =>
      if String.eqb path "" then (ExportFailure "Export cancelled", disk)
      else
        match generateFCPXML clips
                (ToString (or_else (get options "projectName")
                                   (JSString "Video Culler Timeline"))) with
        | Throw e => (ExportFailure e, console_error "Export failed:" e disk)
        | Ok xml =>
            match writeFile path xml disk with
            | (Ok _, disk') => (ExportSuccess path, disk')
            | (Throw e, disk') => (ExportFailure e, console_error "Export failed:" e disk')
            end
        end
  end.

End ExportHandlers.
(** ** Rational counterparts used in the statements *)

Definition sq_dev (m : Q) (s q : Q) : Q := s + (q + - m) * (q + - m).

Definition Qmean (qs : list Q) : Q :=
  fold_left Qplus qs 0 / inject_Z (Z.of_nat (List.length qs)).

Definition Qvariance (qs : list Q) : Q :=
  fold_left (sq_dev (Qmean qs)) qs 0 / inject_Z (Z.of_nat (List.length qs)).

(** The last step of the computation, on a rational variance. *)
Definition Qscore (v : Q) : Q :=
  if Qle_bool 100 (v / 100 * 100) then 100 else v / 100 * 100.


(** ** The analysis of one video as a function of the collaborators *)

Fixpoint sequence {A : Type} (l : list (Result A)) : Result (list A) :=
  match l with
  | [] => Ok []
  | Ok a :: rest =>
      match sequence rest with
      | Ok others => Ok (a :: others)
      | Throw e => Throw e
      end
  | Throw e :: _ => Throw e
  end.

(** The clips of the outcomes that are values, in order. *)
Definition successes {A : Type} (l : list (Result A)) : list A :=
  flat_map (fun r => match r with Ok a => [a] | Throw _ => [] end) l.

(** The progress event sent for the video of index [i] among [total]. *)
Definition analyzing_event (total : nat) (i : nat) (video : VideoFile.t)
  : AnalysisProgress.t :=
  {| AnalysisProgress.stage := AnalysisProgress.analyzing;
     AnalysisProgress.current := i + 1;
     AnalysisProgress.total := total;
     AnalysisProgress.currentFile := Some (VideoFile.filename video);
     AnalysisProgress.message :=
       Some ("Analyzing " ++ VideoFile.filename video ++ "...")%string |}.

Definition complete_event (total : nat) : AnalysisProgress.t :=
  {| AnalysisProgress.stage := AnalysisProgress.complete;
     AnalysisProgress.current := total;
     AnalysisProgress.total := total;
     AnalysisProgress.currentFile := None;
     AnalysisProgress.message := Some "Analysis complete!"%string |}.

(** The videos of a batch with their indices from [i] on. *)
Fixpoint indexed_from {A : Type} (i : nat) (l : list A) : list (nat * A) :=
  match l with
  | [] => []
  | a :: rest => (i, a) :: indexed_from (S i) rest
  end.

Section AnalysisSpec.

Variable Blob : Type.
Variable ffmpeg_extract : string -> number -> Extraction Blob.
Variable sharp_grayscale_raw : Blob -> Result RawImage.
Variable sharp_resize_jpeg_base64 : option Blob -> Result string.

(** Names of the sampled frames of an extraction, in the order returned. *)
Definition frame_names (run : Extraction Blob) : list string :=
  sort (filter (fun f => String.prefix "frame-" f) (map fst (written run))).

(** Score of the file [f] among [entries]. *)
Definition file_score (entries : list (string * Blob)) (f : string) : Result number :=
  match assoc f entries with
  | Some b =>
      match sharp_grayscale_raw b with
      | Ok image => Ok (focusScoreOf image)
      | Throw e => Throw e
      end
  | None => Throw "Input file is missing"
  end.

(** Thumbnail made from the file [f] among [entries], or from no input. *)
Definition file_thumbnail (entries : list (string * Blob)) (f : option string)
  : Result string :=
  match f with
  | Some f' =>
      match assoc f' entries with
      | Some b =>
          match sharp_resize_jpeg_base64 (Some b) with
          | Ok buffer => Ok ("data:image/jpeg;base64," ++ buffer)%string
          | Throw e => Throw e
          end
      | None => Throw "Input file is missing"
      end
  | None =>
      match sharp_resize_jpeg_base64 None with
      | Ok buffer => Ok ("data:image/jpeg;base64," ++ buffer)%string
      | Throw e => Throw e
      end
  end.

(** The clip built from a video, its score and its thumbnail. *)
Definition clip_of (video : VideoFile.t) (overallScore : number) (thumbnail : string)
  : VideoClip.t :=
  {| VideoClip.id := VideoFile.id video;
     VideoClip.path := VideoFile.path video;
     VideoClip.filename := VideoFile.filename video;
     VideoClip.directory := VideoFile.directory video;
     VideoClip.duration := VideoFile.duration video;
     VideoClip.width := VideoFile.width video;
     VideoClip.height := VideoFile.height video;
     VideoClip.fps := VideoFile.fps video;
     VideoClip.codec := VideoFile.codec video;
     VideoClip.thumbnail := Some thumbnail;
     VideoClip.focusScore := overallScore;
     VideoClip.compositionScore := None;
     VideoClip.audioScore := None;
     VideoClip.overallScore := overallScore;
     VideoClip.selected := false;
     VideoClip.inPoint := JS.of_Z 0;
     VideoClip.outPoint := VideoFile.duration video;
     VideoClip.category := None |}.

(** Outcome of the analysis of [video], given whether a temporary
    directory can be created. *)
Definition analysis_of (writable : bool) (video : VideoFile.t) : Result VideoClip.t :=
  if writable then
    let run := ffmpeg_extract (VideoFile.path video) (JS.of_Z 1) in
    match failure run with
    | Some e => Throw e
    | None =>
        let names := frame_names run in
        match sequence (map (file_score (written run)) names) with
        | Throw e => Throw e
        | Ok focusScores =>
            match file_thumbnail (written run)
                    (nth_error names (Nat.div (List.length names) 2)) with
            | Throw e => Throw e
            | Ok thumbnail =>
                Ok (clip_of video (JS.Math_round (mean_of focusScores)) thumbnail)
            end
        end
    end
  else Throw "EACCES: permission denied, mkdtemp".

(** The effects of the analysis of [video]. *)
Definition analysis_effects (writable : bool) (video : VideoFile.t) : list Effect :=
  if writable then [MadeTempDir; RanFfmpeg (VideoFile.path video)] else [].

(** The effects of one iteration of the batch loop on [video], after its
    progress event. *)
Definition iteration_effects (writable : bool) (video : VideoFile.t) : list Effect :=
  analysis_effects writable video ++
  match analysis_of writable video with
  | Ok _ => []
  | Throw e =>
      [ConsoleError ("Failed to analyze " ++ VideoFile.filename video ++ ":")%string e]
  end.

(** Effects of the batch loop on the videos [remaining], the first of which
    has index [i]: for each video its progress event, then the effects of
    its iteration. *)
Definition loop_effects (writable : bool) (total i : nat) (remaining : list VideoFile.t)
  : list Effect :=
  flat_map (fun iv : nat * VideoFile.t =>
              Sent (analyzing_event total (fst iv) (snd iv))
              :: iteration_effects writable (snd iv))
           (indexed_from i remaining).

(** The state in which the analysis of [video] leaves [w]: the directory
    it created holds what the extraction wrote. *)
Definition after_analysis (video : VideoFile.t) (w : World Blob) : World Blob :=
  if tmp_writable w then
    {| tempdirs :=
         tempdirs w ++
         [Some (written (ffmpeg_extract (VideoFile.path video) (JS.of_Z 1)))];
       tmp_writable := tmp_writable w;
       trace := trace w ++ analysis_effects true video;
       clips := clips w |}
  else w.

End AnalysisSpec.

(** The progress events among the effects. *)
Definition sent_events (effects : list Effect) : list AnalysisProgress.t :=
  flat_map (fun e => match e with Sent p => [p] | _ => [] end) effects.

(** The directory that the analysis of [video] acquires in [w] is gone when
    the analysis has finished. *)
Definition temp_dir_removed (Blob : Type)
           (ffmpeg_extract : string -> number -> Extraction Blob)
           (sharp_grayscale_raw : Blob -> Result RawImage)
           (sharp_resize_jpeg_base64 : option Blob -> Result string)
           (video : VideoFile.t) (w : World Blob) : Prop :=
  lookup_dir
    (snd (analyzeVideo ffmpeg_extract sharp_grayscale_raw sharp_resize_jpeg_base64 video w))
    (List.length (tempdirs w)) = None.

(** ** Layout of the spine *)

(** The rendered duration of a clip: [outPoint - inPoint]. *)
Definition rendered_duration (clip : VideoClip.t) : number :=
  JS.sub (VideoClip.outPoint clip) (VideoClip.inPoint clip).

(** Sum of the rendered durations of the clips before rank [i]. *)
Definition offset_of (timeline : list VideoClip.t) (i : nat) : number :=
  JS.reduce (fun sum d => JS.add sum d) (JS.of_Z 0)
            (map rendered_duration (firstn i timeline)).

(** The clips that go on the timeline. *)
Definition selected_clips (clips : list VideoClip.t) : list VideoClip.t :=
  filter (fun c => VideoClip.selected c) clips.

(** The elements of the spine: the clip of rank [i] of the timeline is placed
    at the sum of the durations of the clips before it. *)
Definition spine_of (Number_toString : number -> string) (timeline : list VideoClip.t)
  : list string :=
  let uniqueFiles := uniq (map (fun c => VideoClip.path c) timeline) in
  map (fun ic => asset_clip_xml Number_toString uniqueFiles
                   (offset_of timeline (fst ic)) (snd ic))
      (indexed_from 0 timeline).

(** ** Text of a document *)

(** [needle] occurs in [hay] as a run of consecutive characters. *)
Definition occurs (needle hay : string) : Prop :=
  exists pre post, hay = (pre ++ needle ++ post)%string.

Fixpoint occursb (needle hay : string) : bool :=
  String.prefix needle hay
  || match hay with
     | EmptyString => false
     | String _ rest => occursb needle rest
     end.

(** Characters of an XML name (bytes of non-ASCII characters included). *)
Definition name_start_char (c : ascii) : bool :=
  let n := nat_of_ascii c in
  ((65 <=? n) && (n <=? 90) || (97 <=? n) && (n <=? 122) || (128 <=? n)
   || Ascii.eqb c "_" || Ascii.eqb c ":")%nat.

Definition name_char (c : ascii) : bool :=
  let n := nat_of_ascii c in
  (name_start_char c || (48 <=? n) && (n <=? 57) || Ascii.eqb c "-" || Ascii.eqb c ".")%nat.

Fixpoint take_name (s : string) : string :=
  match s with
  | EmptyString => EmptyString
  | String c rest => if name_char c then String c (take_name rest) else EmptyString
  end.

(** Name of the first element of a document: what follows the first [<]
    that opens a tag. *)
Fixpoint root_element (s : string) : option string :=
  match s with
  | EmptyString => None
  | String c tail =>
      match tail with
      | EmptyString => None
      | String c' _ =>
          if Ascii.eqb c "<" && name_start_char c' then Some (take_name tail)
          else root_element tail
      end
  end.



(** ** The claims that do not hold, as they are stated *)






(** [ExportOptions.format] of [types.ts], and the root element of the
    documents of each format: FCPXML, Premiere Pro XML (xmeml v5), and the
    XML of DaVinci Resolve (xmeml v4). *)
Inductive ExportFormat : Type := fcpxml | premiere | resolve.

Definition requested_format (options : list (string * JSValue)) : option ExportFormat :=
  match get options "format" with
  | JSString f =>
      if String.eqb f "fcpxml" then Some fcpxml
      else if String.eqb f "premiere" then Some premiere
      else if String.eqb f "resolve" then Some resolve
      else None
  | _ => None
  end.

Definition root_of_format (f : ExportFormat) : string :=
  match f with
  | fcpxml => "fcpxml"
  | premiere => "xmeml"
  | resolve => "xmeml"
  end.

(** C8 as stated: the text written is a document of the requested format. *)
Definition written_in_requested_format (Number_toString : number -> string)
           (showSaveDialog : string -> SaveDialogReturnValue)
           (write_error : string -> option string)
           (clips : list VideoClip.t) (options : list (string * JSValue)) (disk : Disk)
  : Prop :=
  forall f path disk' text,
    requested_format options = Some f ->
    exportTimeline Number_toString showSaveDialog write_error clips options disk
    = (ExportSuccess path, disk') ->
    file_at (files disk') path = Some text ->
    root_element text = Some (root_of_format f).

(** ** The export handler, seen from outside *)

(** The name given to the project of a request. *)
Definition project_name_of (Number_toString : number -> string)
           (options : list (string * JSValue)) : string :=
  ToString Number_toString
    (or_else (get options "projectName") (JSString "Video Culler Timeline")).

(** The answer of the save dialog to a request. *)
Definition dialog_answer (Number_toString : number -> string)
           (showSaveDialog : string -> SaveDialogReturnValue)
           (options : list (string * JSValue)) : SaveDialogReturnValue :=
  showSaveDialog
    (ToString Number_toString (or_else (get options "projectName") (JSString "timeline"))
     ++ ".fcpxml")%string.

(** The line of a document that fixes its video format. *)
Definition format_line : string :=
  tpl "    <format id='r0' name='FFVideoFormat1080p30' frameDuration='100/3000s' width='1920' height='1080' colorSpace='1-1-1 (Rec. 709)'/>".

(** The first lines of a document. *)
Definition fcpxml_header : string :=
  (tpl "<?xml version='1.0' encoding='UTF-8'?>" ++ LF ++ "<!DOCTYPE fcpxml>" ++ LF
   ++ tpl "<fcpxml version='1.10'>" ++ LF)%string.

(** A 4 x 3 frame with two interior pixels, one of them brighter. *)
Definition frame_4x3 : RawImage :=
  {| data := [x00; x00; x00; x00;
              x00; x05; x00; x00;
              x00; x00; x00; x00];
     width := 4; height := 3 |}.

(** A 2 x 2 frame: it has no interior pixel. *)
Definition frame_2x2 : RawImage :=
  {| data := [x10; x20; x30; x40]; width := 2; height := 2 |}.


(** A flat 3 x 3 frame. *)
Definition frame_flat : RawImage :=
  {| data := [x80; x80; x80; x80; x80; x80; x80; x80; x80]; width := 3; height := 3 |}.

(** ** A small project folder

    A file is represented by the image sharp decodes from it, [None] for a
    file it cannot decode. *)
Module Demo.

Definition Blob : Type := option RawImage.

Definition ffmpeg_extract (videoPath : string) (interval : number) : Extraction Blob :=
  if String.eqb videoPath "/wedding/A-Roll/vows.mp4" then
    {| written := [("frame-0002.png", Some frame_4x3); ("frame-0001.png", Some frame_flat);
                   ("frame-0003.png", Some frame_4x3)]%string;
       failure := None |}
  else if String.eqb videoPath "/wedding/B-Roll/rings.mov" then
    {| written := [("frame-0001.png", Some frame_4x3)]%string; failure := None |}
  else if String.eqb videoPath "/wedding/B-Roll/truncated.mp4" then
    {| written := [("frame-0001.png", Some frame_flat)]%string;
       failure := Some "ffmpeg exited with code 1: Invalid data found"%string |}
  else
    {| written := []; failure := Some "ffmpeg exited with code 1: No such file"%string |}.

Definition sharp_grayscale_raw (input : Blob) : Result RawImage :=
  match input with
  | Some image => Ok image
  | None => Throw "Input file contains unsupported image format"
  end.

Definition sharp_resize_jpeg_base64 (input : option Blob) : Result string :=
  match input with
  | Some (Some _) => Ok "/9j/4AAQSkZJRg=="%string
  | _ => Throw "Input file contains unsupported image format"
  end.

Definition video (path filename directory : string) (seconds : Z) : VideoFile.t :=
  {| VideoFile.id := path;
     VideoFile.path := path;
     VideoFile.filename := filename;
     VideoFile.directory := directory;
     VideoFile.duration := JS.of_Z seconds;
     VideoFile.width := JS.of_Z 1920;
     VideoFile.height := JS.of_Z 1080;
     VideoFile.fps := JS.of_Z 30;
     VideoFile.codec := "h264";
     VideoFile.thumbnail := None |}.

Definition vows : VideoFile.t := video "/wedding/A-Roll/vows.mp4" "vows.mp4" "A-Roll" 3.
Definition truncated : VideoFile.t :=
  video "/wedding/B-Roll/truncated.mp4" "truncated.mp4" "B-Roll" 7.
Definition rings : VideoFile.t := video "/wedding/B-Roll/rings.mov" "rings.mov" "B-Roll" 1.

Definition start : World Blob :=
  {| tempdirs := []; tmp_writable := true; trace := []; clips := [] |}.

Definition analyzeVideo := analyzeVideo ffmpeg_extract sharp_grayscale_raw sharp_resize_jpeg_base64.
Definition analyzeVideos := analyzeVideos ffmpeg_extract sharp_grayscale_raw sharp_resize_jpeg_base64.

End Demo.

(** ** A printer of numbers for the examples

    The decimal numeral of an integer, and the decimal expansion of a
    fraction that has a finite one, cut after twenty fractional digits
    otherwise; this is what a template literal prints for the integers and
    the short decimal fractions of the examples. *)
Fixpoint fraction_digits (fuel : nat) (remainder denominator : Z) : string :=
  match fuel with
  | O => EmptyString
  | S fuel' =>
      if (remainder =? 0)%Z then EmptyString
      else
        let r10 := (remainder * 10)%Z in
        (NilZero.string_of_int (Z.to_int (r10 / denominator))
         ++ fraction_digits fuel' (r10 mod denominator) denominator)%string
  end.

Definition print_rational (q : Q) : string :=
  let n := Z.abs (Qnum q) in
  let d := Z.pos (Qden q) in
  let sign := if (Qnum q <? 0)%Z then "-"%string else EmptyString in
  let whole := NilZero.string_of_int (Z.to_int (n / d)) in
  if (n mod d =? 0)%Z then (sign ++ whole)%string
  else (sign ++ whole ++ "." ++ fraction_digits 20 (n mod d) d)%string.

Definition print_number (n : number) : string :=
  match n with
  | Num q => print_rational q
  | PInf => "Infinity"
  | NInf => "-Infinity"
  | NaN => "NaN"
  end.

Module DemoExport.

Definition clip (path filename : string) (selected : bool) (inPoint outPoint : Z)
  : VideoClip.t :=
  {| VideoClip.id := path;
     VideoClip.path := path;
     VideoClip.filename := filename;
     VideoClip.directory := "A-Roll";
     VideoClip.duration := JS.of_Z 60;
     VideoClip.width := JS.of_Z 1920;
     VideoClip.height := JS.of_Z 1080;
     VideoClip.fps := JS.of_Z 30;
     VideoClip.codec := "h264";
     VideoClip.thumbnail := None;
     VideoClip.focusScore := JS.of_Z 82;
     VideoClip.compositionScore := None;
     VideoClip.audioScore := None;
     VideoClip.overallScore := JS.of_Z 82;
     VideoClip.selected := selected;
     VideoClip.inPoint := JS.of_Z inPoint;
     VideoClip.outPoint := JS.of_Z outPoint;
     VideoClip.category := None |}.

(** Three selected clips of 5, 3 and 7 seconds, each starting at 0. *)
Definition three_clips : list VideoClip.t :=
  [ clip "/wedding/A-Roll/vows.mp4" "vows.mp4" true 0 5;
    clip "/wedding/A-Roll/kiss.mp4" "kiss.mp4" true 0 3;
    clip "/wedding/A-Roll/exit.mp4" "exit.mp4" true 0 7 ].

(** The user accepts the proposed path, in the folder [/exports]. *)
Definition showSaveDialog (defaultPath : string) : SaveDialogReturnValue :=
  {| canceled := false; filePath := Some ("/exports/" ++ defaultPath)%string |}.

Definition write_error (path : string) : option string := None.

Definition empty_disk : Disk := {| files := []; console := [] |}.

Definition generateFCPXML := generateFCPXML print_number.
Definition exportTimeline := exportTimeline print_number showSaveDialog write_error.

End DemoExport.

Module DemoNames.


(** A request for the Premiere dialect at 17 frames per second. *)
Definition premiere_at_17 : list (string * JSValue) :=
  [ ("projectName", JSString "Wedding Timeline");
    ("format", JSString "premiere");
    ("settings", JSObject [("framerate", JSNumber (JS.of_Z 17));
                           ("resolution", JSObject [])]) ]%string.

End DemoNames.

(** * The handlers and components around the analysis and the export

    The folder scan ([fileHandlers.ts]), the clip handlers
    ([clipHandlers.ts]), the store of the renderer ([store.ts]) and the
    functions of its components ([ExportBar.tsx], [ClipsGrid.tsx],
    [ClipCard.tsx], [AnalysisView.tsx], [WelcomeScreen.tsx]). *)

(** * The rest of the handlers and the renderer *)

(** ** More of JavaScript's arithmetic *)

Module JSMore.


(** [Math.floor] *)
Definition Math_floor (a : number) : number :=
  match a with
  | Num x => JS.of_Z (Qfloor x)
  | other => other
  end.

(** The integer part of a rational, towards zero. *)
Definition Qtruncate (x : Q) : Z :=
  if Qle_bool 0 x then Qfloor x else Qceiling x.

(** [a % b]: the remainder of the division truncated towards zero. *)
Definition rem (a b : number) : number :=
  match a, b with
  | NaN, _ | _, NaN => NaN
  | (PInf | NInf), _ => NaN
  | Num x, (PInf | NInf) => Num x
  | Num x, Num y =>
      if Qeq_bool y 0 then NaN
      else Num (x - y * inject_Z (Qtruncate (x / y)))
  end.

End JSMore.

(** [String.prototype.padStart] *)
Fixpoint fill_to (n : nat) (fill current : string) : string :=
  match n with
  | O => EmptyString
  | S n' =>
      match current with
      | EmptyString =>
          match fill with
          | EmptyString => EmptyString
          | String c rest => String c (fill_to n' fill rest)
          end
      | String c rest => String c (fill_to n' fill rest)
      end
  end.

Definition padStart (targetLength : nat) (padString s : string) : string :=
  (fill_to (targetLength - String.length s) padString padString ++ s)%string.

(** ** The clip store of the main process ([clipHandlers.ts]) *)

(** The clip with its [selected] property assigned. *)
Definition set_selected (clip : VideoClip.t) (value : bool) : VideoClip.t :=
  {| VideoClip.id := VideoClip.id clip;
     VideoClip.path := VideoClip.path clip;
     VideoClip.filename := VideoClip.filename clip;
     VideoClip.directory := VideoClip.directory clip;
     VideoClip.duration := VideoClip.duration clip;
     VideoClip.width := VideoClip.width clip;
     VideoClip.height := VideoClip.height clip;
     VideoClip.fps := VideoClip.fps clip;
     VideoClip.codec := VideoClip.codec clip;
     VideoClip.thumbnail := VideoClip.thumbnail clip;
     VideoClip.focusScore := VideoClip.focusScore clip;
     VideoClip.compositionScore := VideoClip.compositionScore clip;
     VideoClip.audioScore := VideoClip.audioScore clip;
     VideoClip.overallScore := VideoClip.overallScore clip;
     VideoClip.selected := value;
     VideoClip.inPoint := VideoClip.inPoint clip;
     VideoClip.outPoint := VideoClip.outPoint clip;
     VideoClip.category := VideoClip.category clip |}.

(** Handler of [IPC_CHANNELS.TOGGLE_SELECTION]: the store after
    [clip.selected = !clip.selected] on the clip that [find] returns, which
    is also what the handler returns. *)
Fixpoint toggleSelection (clipId : string) (clips : list VideoClip.t) : list VideoClip.t :=
  match clips with
  | [] => []
  | c :: rest =>
      if String.eqb (VideoClip.id c) clipId
      then set_selected c (negb (VideoClip.selected c)) :: rest
      else c :: toggleSelection clipId rest
  end.

(** [Partial<VideoClip>]: every property present with a value, or absent. *)
Module PartialVideoClip.
Record t : Type := {
  id : option string;
  path : option string;
  filename : option string;
  directory : option string;
  duration : option number;
  width : option number;
  height : option number;
  fps : option number;
  codec : option string;
  thumbnail : option string;
  focusScore : option number;
  compositionScore : option number;
  audioScore : option number;
  overallScore : option number;
  selected : option bool;
  inPoint : option number;
  outPoint : option number;
  category : option string
}.
End PartialVideoClip.

(** A property of the second operand of a spread wins when it is present. *)
Definition spread {A : Type} (old : A) (new : option A) : A :=
  match new with
  | Some v => v
  | None => old
  end.

Definition spread_optional {A : Type} (old : option A) (new : option A) : option A :=
  match new with
  | Some v => Some v
  | None => old
  end.

(** [{ ...clip, ...updatedClip }] *)
Definition merge_clip (clip : VideoClip.t) (updatedClip : PartialVideoClip.t) : VideoClip.t :=
  {| VideoClip.id := spread (VideoClip.id clip) (PartialVideoClip.id updatedClip);
     VideoClip.path := spread (VideoClip.path clip) (PartialVideoClip.path updatedClip);
     VideoClip.filename :=
       spread (VideoClip.filename clip) (PartialVideoClip.filename updatedClip);
     VideoClip.directory :=
       spread (VideoClip.directory clip) (PartialVideoClip.directory updatedClip);
     VideoClip.duration :=
       spread (VideoClip.duration clip) (PartialVideoClip.duration updatedClip);
     VideoClip.width := spread (VideoClip.width clip) (PartialVideoClip.width updatedClip);
     VideoClip.height := spread (VideoClip.height clip) (PartialVideoClip.height updatedClip);
     VideoClip.fps := spread (VideoClip.fps clip) (PartialVideoClip.fps updatedClip);
     VideoClip.codec := spread (VideoClip.codec clip) (PartialVideoClip.codec updatedClip);
     VideoClip.thumbnail :=
       spread_optional (VideoClip.thumbnail clip) (PartialVideoClip.thumbnail updatedClip);
     VideoClip.focusScore :=
       spread (VideoClip.focusScore clip) (PartialVideoClip.focusScore updatedClip);
     VideoClip.compositionScore :=
       spread_optional (VideoClip.compositionScore clip)
                       (PartialVideoClip.compositionScore updatedClip);
     VideoClip.audioScore :=
       spread_optional (VideoClip.audioScore clip) (PartialVideoClip.audioScore updatedClip);
     VideoClip.overallScore :=
       spread (VideoClip.overallScore clip) (PartialVideoClip.overallScore updatedClip);
     VideoClip.selected :=
       spread (VideoClip.selected clip) (PartialVideoClip.selected updatedClip);
     VideoClip.inPoint :=
       spread (VideoClip.inPoint clip) (PartialVideoClip.inPoint updatedClip);
     VideoClip.outPoint :=
       spread (VideoClip.outPoint clip) (PartialVideoClip.outPoint updatedClip);
     VideoClip.category :=
       spread_optional (VideoClip.category clip) (PartialVideoClip.category updatedClip) |}.

(** [clips.findIndex((c) => c.id === updatedClip.id)], [-1] being [None]; no
    clip has the id [undefined]. *)
Fixpoint findIndex_id (clips : list VideoClip.t) (wanted : option string) : option nat :=
  match clips with
  | [] => None
  | c :: rest =>
      match wanted with
      | Some i =>
          if String.eqb (VideoClip.id c) i then Some O
          else option_map S (findIndex_id rest wanted)
      | None => None
      end
  end.

(** [clips[index] = value], for an index inside the array. *)
Fixpoint assign_at (clips : list VideoClip.t) (index : nat) (value : VideoClip.t)
  : list VideoClip.t :=
  match clips, index with
  | [], _ => []
  | _ :: rest, O => value :: rest
  | c :: rest, S index' => c :: assign_at rest index' value
  end.

(** Handler of [IPC_CHANNELS.UPDATE_CLIP]: the store afterwards, which is
    also what the handler returns. *)
Definition updateClip (updatedClip : PartialVideoClip.t) (clips : list VideoClip.t)
  : list VideoClip.t :=
  match findIndex_id clips (PartialVideoClip.id updatedClip) with
  | Some clipIndex =>
      match nth_error clips clipIndex with
      | Some clip => assign_at clips clipIndex (merge_clip clip updatedClip)
      | None => clips
      end
  | None => clips
  end.

(** ** The store of the renderer ([store.ts]) *)

Module Store.

(** The new [clips] of [toggleClipSelection]. *)
Definition toggled (clipId : string) (clips : list VideoClip.t) : list VideoClip.t :=
  map (fun clip =>
         if String.eqb (VideoClip.id clip) clipId
         then set_selected clip (negb (VideoClip.selected clip))
         else clip)
      clips.

Definition selectedClips (clips : list VideoClip.t) : list VideoClip.t :=
  filter (fun c => VideoClip.selected c) clips.

Definition totalDuration (clips : list VideoClip.t) : number :=
  JS.reduce (fun sum clip => JS.add sum (VideoClip.duration clip)) (JS.of_Z 0) clips.


End Store.

(** The two copies of the clips: the renderer's store and the main process's
    module-level array. *)
Record Stores : Type := {
  renderer : list VideoClip.t;
  main : list VideoClip.t
}.

(** [toggleClipSelection] of the store: the renderer's clips are replaced,
    then the main process is told to toggle the same id. *)
Definition toggleClipSelection (clipId : string) (s : Stores) : Stores :=
  {| renderer := Store.toggled clipId (renderer s);
     main := toggleSelection clipId (main s) |}.

(** ** The export bar ([ExportBar.tsx]) *)



(** What the user sees of an export. *)
Inductive UiEffect : Type :=
| Alert (text : string)
| SetIsExporting (value : bool).

Section Renderer.

Variable Number_toString : number -> string.
Variable showSaveDialog : string -> SaveDialogReturnValue.
Variable write_error : string -> option string.

(** [formatTime] of the export bar, which is also [formatDuration] of the
    clip card. *)
Definition formatTime (seconds : number) : string :=
  let mins := JSMore.Math_floor (JS.div seconds (JS.of_Z 60)) in
  let secs := JSMore.Math_floor (JSMore.rem seconds (JS.of_Z 60)) in
  (Number_toString mins ++ ":" ++ padStart 2 "0" (Number_toString secs))%string.

(** [handleExport]: the call of [window.api.exportTimeline] runs the handler
    of the main process, which returns a result and does not throw. *)
Definition handleExport (clips : list VideoClip.t) (disk : Disk) : list UiEffect * Disk :=
  let selectedClips := filter (fun c => VideoClip.selected c) clips in
  let selectedCount := List.length selectedClips in
  if (selectedCount =? 0)%nat then
    ([Alert "Please select at least one clip to export."], disk)
  else
    let (result, disk') :=
      exportTimeline Number_toString showSaveDialog write_error selectedClips
        [("projectName", JSString "Wedding Timeline"); ("format", JSString "fcpxml")]%string
        disk in
    ([SetIsExporting true;
      match result with
      | ExportSuccess path =>
          Alert ("Timeline exported successfully to:" ++ LF ++ path)%string
      | ExportFailure message => Alert ("Export failed: " ++ message)%string
      end;
      SetIsExporting false], disk').

End Renderer.

(** ** The grid of clips ([ClipsGrid.tsx]) *)

Definition directories (clips : list VideoClip.t) : list string :=
  uniq (map (fun c => VideoClip.directory c) clips).

Definition filteredClips (filterDirectory : string) (clips : list VideoClip.t)
  : list VideoClip.t :=
  filter (fun clip =>
            if String.eqb filterDirectory "all" then true
            else String.eqb (VideoClip.directory clip) filterDirectory)
         clips.

(** ** The progress bar ([AnalysisView.tsx]) *)



(** ** Orders used in the statements *)


(** ** Scanning a folder ([fileHandlers.ts]) *)

Definition VIDEO_EXTENSIONS : list string :=
  [".mp4"; ".mov"; ".avi"; ".mxf"; ".m4v"; ".mkv"]%string.

(** [s.lastIndexOf(c)] for a one-character [c]: the index of the last
    occurrence, or [-1].  Indices count the bytes of the string, which are
    its characters when it is in ASCII. *)
Fixpoint lastIndexOf (c : ascii) (s : string) : Z :=
  match s with
  | EmptyString => (-1)%Z
  | String a rest =>
      let later := lastIndexOf c rest in
      if (0 <=? later)%Z then (later + 1)%Z
      else if Ascii.eqb a c then 0%Z else (-1)%Z
  end.

Fixpoint drop (n : nat) (s : string) : string :=
  match n, s with
  | O, _ => s
  | S n', String _ rest => drop n' rest
  | S _, EmptyString => EmptyString
  end.

(** [s.substring(start)]: a negative start counts as 0. *)
Definition substring_from (start : Z) (s : string) : string :=
  drop (Z.to_nat (Z.max 0 start)) s.

(** [Array.prototype.includes] on strings *)
Definition includes (l : list string) (s : string) : bool :=
  existsb (String.eqb s) l.

(** The lower case of the letters A to Z, the other bytes kept. *)
Definition ascii_lower_char (c : ascii) : ascii :=
  let n := nat_of_ascii c in
  if ((65 <=? n) && (n <=? 90))%nat then ascii_of_nat (n + 32) else c.

Fixpoint ascii_lower (s : string) : string :=
  match s with
  | EmptyString => EmptyString
  | String c rest => String (ascii_lower_char c) (ascii_lower rest)
  end.

Fixpoint ascii_only (s : string) : Prop :=
  match s with
  | EmptyString => True
  | String c rest => (nat_of_ascii c < 128)%nat /\ ascii_only rest
  end.

(** [s.split(sep)] for a one-character [sep]. *)
Fixpoint split_on (sep : ascii) (s : string) : list string :=
  match s with
  | EmptyString => [EmptyString]
  | String c rest =>
      if Ascii.eqb c sep then EmptyString :: split_on sep rest
      else match split_on sep rest with
           | [] => [String c EmptyString]
           | first :: others => String c first :: others
           end
  end.

(** *** [parseInt] with one argument *)

(** The string without the white space and line terminators it starts with:
    tab, line feed, vertical tab, form feed, carriage return, space, and in
    UTF-8 the no-break space, the byte order mark, the line and paragraph
    separators and the other space separators. *)
Fixpoint trim_leading (s : string) : string :=
  match s with
  | EmptyString => EmptyString
  | String c r1 =>
      let n := nat_of_ascii c in
      if ((9 <=? n) && (n <=? 13) || (n =? 32))%nat then trim_leading r1
      else
        match r1 with
        | EmptyString => s
        | String c2 r2 =>
            let n2 := nat_of_ascii c2 in
            if ((n =? 194) && (n2 =? 160))%nat then trim_leading r2
            else
              match r2 with
              | EmptyString => s
              | String c3 r3 =>
                  let n3 := nat_of_ascii c3 in
                  if ((n =? 225) && (n2 =? 154) && (n3 =? 128)
                      || (n =? 226) && (n2 =? 128)
                         && ((128 <=? n3) && (n3 <=? 138) || (n3 =? 168) || (n3 =? 169)
                             || (n3 =? 175))
                      || (n =? 226) && (n2 =? 129) && (n3 =? 159)
                      || (n =? 227) && (n2 =? 128) && (n3 =? 128)
                      || (n =? 239) && (n2 =? 187) && (n3 =? 191))%nat
                  then trim_leading r3
                  else s
              end
        end
  end.

(** The value of a character as a digit in the radix, if it is one. *)
Definition digit_value (radix : Z) (c : ascii) : option Z :=
  let n := Z.of_nat (nat_of_ascii c) in
  let v := if ((48 <=? n) && (n <=? 57))%Z then (n - 48)%Z
           else if ((97 <=? n) && (n <=? 122))%Z then (n - 87)%Z
           else if ((65 <=? n) && (n <=? 90))%Z then (n - 55)%Z
           else 99%Z in
  if (v <? radix)%Z then Some v else None.

(** The digits a string starts with: how many, and their value after [acc]. *)
Fixpoint leading_digits (radix : Z) (s : string) (count : nat) (acc : Z) : nat * Z :=
  match s with
  | EmptyString => (count, acc)
  | String c rest =>
      match digit_value radix c with
      | Some v => leading_digits radix rest (S count) (acc * radix + v)%Z
      | None => (count, acc)
      end
  end.

Definition parse_digits (radix : Z) (negative : bool) (s : string) : number :=
  match leading_digits radix s 0 0 with
  | (O, _) => NaN
  | (_, value) => JS.of_Z (if negative then (- value)%Z else value)
  end.

Definition parse_unsigned (negative : bool) (s : string) : number :=
  match s with
  | String "0" (String x rest) =>
      if Ascii.eqb x "x" || Ascii.eqb x "X" then parse_digits 16 negative rest
      else parse_digits 10 negative s
  | _ => parse_digits 10 negative s
  end.

Definition parseInt (s : string) : number :=
  match trim_leading s with
  | String "-" rest => parse_unsigned true rest
  | String "+" rest => parse_unsigned false rest
  | trimmed => parse_unsigned false trimmed
  end.

(** *** [getVideoMetadata] *)

(** A stream and the data of a probe, with the properties the handler reads. *)
Record ProbeStream : Type := {
  codec_type : option string;
  r_frame_rate : option string;
  stream_width : option number;
  stream_height : option number;
  codec_name : option string
}.

Record ProbeData : Type := {
  streams : list ProbeStream;
  format_duration : option number
}.

Record VideoMetadata : Type := {
  meta_duration : number;
  meta_width : number;
  meta_height : number;
  meta_fps : number;
  meta_codec : string
}.

(** [value || 0] for an optional number. *)
Definition number_or_zero (value : option number) : number :=
  match value with
  | Some n => if truthy (JSNumber n) then n else JS.of_Z 0
  | None => JS.of_Z 0
  end.

(** The frame rate read from [r_frame_rate]. *)
Definition frame_rate_of (r_frame_rate : option string) : number :=
  match r_frame_rate with
  | Some text =>
      if String.eqb text "" then JS.of_Z 30
      else
        match split_on "/" text with
        | [numerator; denominator] => JS.div (parseInt numerator) (parseInt denominator)
        | _ => JS.of_Z 30
        end
  | None => JS.of_Z 30
  end.

(** What [getVideoMetadata] makes of the answer of the probe. *)
Definition metadata_of_probe (answer : Result ProbeData) : Result VideoMetadata :=
  match answer with
  | Throw err => Throw err
  | Ok metadata =>
      match find (fun s => match codec_type s with
                           | Some t => String.eqb t "video"
                           | None => false
                           end) (streams metadata) with
      | None => Throw "No video stream found"
      | Some videoStream =>
          Ok {| meta_duration := number_or_zero (format_duration metadata);
                meta_width := number_or_zero (stream_width videoStream);
                meta_height := number_or_zero (stream_height videoStream);
                meta_fps := frame_rate_of (r_frame_rate videoStream);
                meta_codec := match codec_name videoStream with
                              | Some n => if String.eqb n "" then "unknown" else n
                              | None => "unknown"
                              end |}
      end
  end.

(** *** [scanDirectory] *)

(** An entry of a directory: a directory with what [readdir] gives for it, a
    regular file, or something else (a link, a socket). *)
Inductive Dirent : Type :=
| DirEntry (entry_name : string) (listing : Result (list Dirent))
| FileEntry (entry_name : string)
| OtherEntry (entry_name : string).

(** What a scan has done so far: the video files pushed, the paths probed,
    and the errors written to the console. *)
Record ScanState : Type := {
  videoFiles : list VideoFile.t;
  probed : list string;
  scan_errors : list (string * string)
}.

Section Scan.

(** Node's [path] functions, the probe of ffmpeg, and the lower-casing of
    strings. *)
Variable path_join : string -> string -> string.
Variable path_basename : string -> string.
Variable path_dirname : string -> string.
Variable path_relative : string -> string -> string.
Variable ffprobe : string -> Result ProbeData.
Variable toLowerCase : string -> string.

(** The extension test of the scan. *)
Definition extension_of (entry_name : string) : string :=
  substring_from (lastIndexOf "." entry_name) (toLowerCase entry_name).

Definition is_video_name (entry_name : string) : bool :=
  includes VIDEO_EXTENSIONS (extension_of entry_name).

Definition getVideoMetadata (filePath : string) : Result VideoMetadata :=
  metadata_of_probe (ffprobe filePath).

(** The body of the loop for a regular file. *)
Definition scan_file (folderPath fullPath : string) (st : ScanState) : ScanState :=
  match getVideoMetadata fullPath with
  | Ok metadata =>
      let relativePath := path_relative folderPath (path_dirname fullPath) in
      {| videoFiles :=
           videoFiles st ++
           [{| VideoFile.id := fullPath;
               VideoFile.path := fullPath;
               VideoFile.filename := path_basename fullPath;
               VideoFile.directory :=
                 if String.eqb relativePath "" then "root" else relativePath;
               VideoFile.duration := meta_duration metadata;
               VideoFile.width := meta_width metadata;
               VideoFile.height := meta_height metadata;
               VideoFile.fps := meta_fps metadata;
               VideoFile.codec := meta_codec metadata;
               VideoFile.thumbnail := None |}];
         probed := probed st ++ [fullPath];
         scan_errors := scan_errors st |}
  | Throw error =>
      {| videoFiles := videoFiles st;
         probed := probed st ++ [fullPath];
         scan_errors :=
           scan_errors st
           ++ [(("Failed to read metadata for " ++ fullPath ++ ":")%string, error)] |}
  end.

(** One turn of the loop of [scanDirectory(dirPath)] on [entry]; for a
    directory, the call [scanDirectory(fullPath)]. *)
Fixpoint scan_entry (folderPath dirPath : string) (entry : Dirent) (st : ScanState)
  : Result unit * ScanState :=
  match entry with
  | DirEntry entry_name listing =>
      let fullPath := path_join dirPath entry_name in
      match listing with
      | Throw error => (Throw error, st)
      | Ok entries =>
          (fix scan_all (remaining : list Dirent) (st : ScanState)
             : Result unit * ScanState :=
             match remaining with
             | [] => (Ok tt, st)
             | e :: rest =>
                 match scan_entry folderPath fullPath e st with
                 | (Ok _, st') => scan_all rest st'
                 | (Throw error, st') => (Throw error, st')
                 end
             end) entries st
      end
  | FileEntry entry_name =>
      let fullPath := path_join dirPath entry_name in
      if is_video_name entry_name
      then (Ok tt, scan_file folderPath fullPath st)
      else (Ok tt, st)
  | OtherEntry _ => (Ok tt, st)
  end.

(** [scanDirectory(dirPath)] given what [readdir(dirPath)] answers. *)
Fixpoint scan_entries (folderPath dirPath : string) (entries : list Dirent) (st : ScanState)
  : Result unit * ScanState :=
  match entries with
  | [] => (Ok tt, st)
  | e :: rest =>
      match scan_entry folderPath dirPath e st with
      | (Ok _, st') => scan_entries folderPath dirPath rest st'
      | (Throw error, st') => (Throw error, st')
      end
  end.

(** Handler of [IPC_CHANNELS.SCAN_VIDEOS]: the video files returned, or the
    error thrown, and the state of the scan. *)
Definition scanVideos (folderPath : string) (listing : Result (list Dirent))
  : Result (list VideoFile.t) * ScanState :=
  let start := {| videoFiles := []; probed := []; scan_errors := [] |} in
  match listing with
  | Throw error => (Throw error, start)
  | Ok entries =>
      match scan_entries folderPath folderPath entries start with
      | (Ok _, st) => (Ok (videoFiles st), st)
      | (Throw error, st) => (Throw error, st)
      end
  end.

End Scan.

(** *** Notions for the statements about the scan *)


Fixpoint has_char (c : ascii) (s : string) : bool :=
  match s with
  | EmptyString => false
  | String a rest => Ascii.eqb a c || has_char c rest
  end.


Section ScanNotions.

Variable path_join : string -> string -> string.
Variable path_basename : string -> string.
Variable path_dirname : string -> string.
Variable path_relative : string -> string -> string.
Variable ffprobe : string -> Result ProbeData.
Variable toLowerCase : string -> string.

(** Every directory of the entry, the entry included, can be listed. *)
Fixpoint readable (entry : Dirent) : bool :=
  match entry with
  | DirEntry _ (Ok entries) => forallb readable entries
  | DirEntry _ (Throw _) => false
  | FileEntry _ | OtherEntry _ => true
  end.

(** The paths of the regular files with a video extension at or below an
    entry of [dirPath], in the order of the listings. *)
Fixpoint video_paths (dirPath : string) (entry : Dirent) : list string :=
  match entry with
  | DirEntry entry_name (Ok entries) =>
      flat_map (video_paths (path_join dirPath entry_name)) entries
  | DirEntry _ (Throw _) => []
  | FileEntry entry_name =>
      if is_video_name toLowerCase entry_name then [path_join dirPath entry_name] else []
  | OtherEntry _ => []
  end.

(** The video file of a path whose probe answers with a video stream. *)
Definition probed_file (folderPath fullPath : string) : list VideoFile.t :=
  match ffprobe fullPath with
  | Throw _ => []
  | Ok metadata =>
      match find (fun s => match codec_type s with
                           | Some t => String.eqb t "video"
                           | None => false
                           end) (streams metadata) with
      | None => []
      | Some videoStream =>
          [{| VideoFile.id := fullPath;
              VideoFile.path := fullPath;
              VideoFile.filename := path_basename fullPath;
              VideoFile.directory :=
                match path_relative folderPath (path_dirname fullPath) with
                | EmptyString => "root"
                | relativePath => relativePath
                end;
              VideoFile.duration := number_or_zero (format_duration metadata);
              VideoFile.width := number_or_zero (stream_width videoStream);
              VideoFile.height := number_or_zero (stream_height videoStream);
              VideoFile.fps := frame_rate_of (r_frame_rate videoStream);
              VideoFile.codec := match codec_name videoStream with
                                 | Some EmptyString | None => "unknown"
                                 | Some n => n
                                 end;
              VideoFile.thumbnail := None |}]
      end
  end.

(** The loop body for regular files, on one path after the other. *)
Definition scan_paths (folderPath : string) (paths : list string) (st : ScanState)
  : ScanState :=
  fold_left
    (fun st fullPath =>
       scan_file path_basename path_dirname path_relative ffprobe folderPath fullPath st)
    paths st.

End ScanNotions.

Section DirentInduction.

Variable P : Dirent -> Prop.
Hypothesis P_listed : forall entry_name entries,
  Forall P entries -> P (DirEntry entry_name (Ok entries)).
Hypothesis P_unlisted : forall entry_name error, P (DirEntry entry_name (Throw error)).
Hypothesis P_file : forall entry_name, P (FileEntry entry_name).
Hypothesis P_other : forall entry_name, P (OtherEntry entry_name).

(** Induction on an entry, with the property for the entries of a listing. *)
Fixpoint Dirent_nested_ind (entry : Dirent) : P entry :=
  match entry with
  | DirEntry entry_name (Ok entries) =>
      P_listed entry_name
        ((fix all (es : list Dirent) : Forall P es :=
            match es with
            | [] => Forall_nil P
            | e :: rest => Forall_cons e (Dirent_nested_ind e) (all rest)
            end) entries)
  | DirEntry entry_name (Throw error) => P_unlisted entry_name error
  | FileEntry entry_name => P_file entry_name
  | OtherEntry entry_name => P_other entry_name
  end.

End DirentInduction.

(** ** The welcome screen ([WelcomeScreen.tsx]) *)

(** What [handleSelectFolder] does to the component, the store and the
    window, in order. *)
Inductive WelcomeEffect : Type :=
| SetIsLoading (value : bool)
| SetSelectedFolder (folderPath : string)
| SetIsAnalyzing (value : bool)
| SetClips (clips : list VideoClip.t)
| WelcomeAlert (message : string)
| WelcomeConsoleError (error : string).

Section Welcome.

(** The answers of the main process to [window.api]: the folder chosen
    ([None] when the dialog was cancelled), the scan and the analysis. *)
Variable selectFolder : Result (option string).
Variable scanVideos : string -> Result (list VideoFile.t).
Variable analyzeVideos : list VideoFile.t -> Result (list VideoClip.t).

(** The [catch] block *)
Definition handleSelectFolder_catch (error : string) : list WelcomeEffect :=
  [WelcomeConsoleError error;
   WelcomeAlert "An error occurred while processing videos.";
   SetIsLoading false;
   SetIsAnalyzing false].

Definition handleSelectFolder : list WelcomeEffect :=
  SetIsLoading true ::
  match selectFolder with
  | Throw error => handleSelectFolder_catch error
  | Ok None | Ok (Some EmptyString) => [SetIsLoading false]
  | Ok (Some folderPath) =>
      SetSelectedFolder folderPath ::
      match scanVideos folderPath with
      | Throw error => handleSelectFolder_catch error
      | Ok videoFiles =>
          if (List.length videoFiles =? 0)%nat
          then [WelcomeAlert "No video files found in the selected folder.";
                SetIsLoading false]
          else
            SetIsAnalyzing true ::
            match analyzeVideos videoFiles with
            | Throw error => handleSelectFolder_catch error
            | Ok analyzedClips => [SetClips analyzedClips; SetIsAnalyzing false]
            end
      end
  end.

End Welcome.

(** The flags of the screen after a list of effects. *)
Definition isLoading_after (effects : list WelcomeEffect) : bool :=
  fold_left (fun flag e => match e with SetIsLoading v => v | _ => flag end)
    effects false.

Definition isAnalyzing_after (effects : list WelcomeEffect) : bool :=
  fold_left (fun flag e => match e with SetIsAnalyzing v => v | _ => flag end)
    effects false.

(** ** More examples *)

(** The 4 x 3 frame with every sample 16 levels brighter. *)
Definition frame_4x3_brighter : RawImage :=
  {| data := [x10; x10; x10; x10;
              x10; x15; x10; x10;
              x10; x10; x10; x10];
     width := 4; height := 3 |}.

(** A project folder on disk: [/wedding] with a directory of three files, a
    link, a file with an upper-case extension and an empty directory.  The
    paths are joined with a slash, and the probe knows three of the files. *)
Module DemoScan.

Definition path_join (a b : string) : string := (a ++ "/" ++ b)%string.

Definition path_dirname (p : string) : string :=
  String.substring 0 (Z.to_nat (lastIndexOf "/" p)) p.

Definition path_basename (p : string) : string :=
  substring_from (lastIndexOf "/" p + 1) p.

Definition path_relative (from to : string) : string :=
  if String.prefix from to then drop (S (String.length from)) to else to.

Definition video_stream (rate : string) : ProbeStream :=
  {| codec_type := Some "video"%string;
     r_frame_rate := Some rate;
     stream_width := Some (JS.of_Z 1920);
     stream_height := Some (JS.of_Z 1080);
     codec_name := Some "h264"%string |}.

Definition audio_stream : ProbeStream :=
  {| codec_type := Some "audio"%string;
     r_frame_rate := Some "0/0"%string;
     stream_width := None;
     stream_height := None;
     codec_name := Some "aac"%string |}.

Definition ffprobe (filePath : string) : Result ProbeData :=
  if String.eqb filePath "/wedding/A-Roll/vows.mp4" then
    Ok {| streams := [audio_stream; video_stream "30000/1001"];
          format_duration := Some (Num (25 # 2)) |}
  else if String.eqb filePath "/wedding/A-Roll/speech.m4v" then
    Ok {| streams := [audio_stream]; format_duration := Some (JS.of_Z 90) |}
  else if String.eqb filePath "/wedding/teaser.MP4" then
    Ok {| streams := [video_stream "25/1"]; format_duration := None |}
  else Throw "ffprobe exited with code 1".

Definition entries : list Dirent :=
  [ DirEntry "A-Roll"
      (Ok [FileEntry "vows.mp4"; FileEntry "notes.txt"; FileEntry "speech.m4v";
           FileEntry "BROKEN.MOV"]);
    OtherEntry "latest";
    FileEntry "teaser.MP4";
    DirEntry "RAW" (Ok []) ]%string.

Definition scanVideos :=
  scanVideos path_join path_basename path_dirname path_relative ffprobe ascii_lower.

(** The entry that the scan makes for [teaser.MP4]. *)
Definition teaser : VideoFile.t :=
  {| VideoFile.id := "/wedding/teaser.MP4";
     VideoFile.path := "/wedding/teaser.MP4";
     VideoFile.filename := "teaser.MP4";
     VideoFile.directory := "root";
     VideoFile.duration := JS.of_Z 0;
     VideoFile.width := JS.of_Z 1920;
     VideoFile.height := JS.of_Z 1080;
     VideoFile.fps := Num (25 / 1);
     VideoFile.codec := "h264";
     VideoFile.thumbnail := None |}.

End DemoScan.
(** * Properties *)

(** ** Arithmetic on rational values *)

Lemma Qcompare_pos (y : Q) : 0 < y -> (y ?= 0) = Gt.
Proof. intros H. apply Qgt_alt. exact H. Qed.

Lemma of_nat_pos (n : nat) : (0 < n)%nat -> 0 < inject_Z (Z.of_nat n).
Proof.
  intros H. replace 0 with (inject_Z 0) by reflexivity.
  rewrite <- Zlt_Qlt. lia.
Qed.

Lemma div_num_pos (x y : Q) : 0 < y -> JS.div (Num x) (Num y) = Num (x / y).
Proof. intros H. simpl. rewrite (Qcompare_pos H). reflexivity. Qed.

Lemma Qdiv_nonneg (x y : Q) : 0 <= x -> 0 < y -> 0 <= x / y.
Proof.
  intros Hx Hy. unfold Qdiv.
  apply Qmult_le_0_compat; [exact Hx|].
  apply Qlt_le_weak, Qinv_lt_0_compat; exact Hy.
Qed.

Lemma Qdiv_zero (x y : Q) : x == 0 -> x / y == 0.
Proof. intros Hx. unfold Qdiv. rewrite Hx. ring. Qed.

(** Sum of the array by [reduce], on rational values. *)
Lemma reduce_add_num (qs : list Q) (a : Q) :
  JS.reduce (fun sum val => JS.add sum val) (Num a) (map Num qs)
  = Num (fold_left Qplus qs a).
Proof.
  unfold JS.reduce. revert a.
  induction qs as [|q qs IH]; intros a; simpl; [reflexivity|].
  apply IH.
Qed.

Lemma Qsquare_nonneg (x : Q) : 0 <= x * x.
Proof.
  unfold Qle, Qmult. simpl. rewrite Z.mul_1_r. apply Z.square_nonneg.
Qed.


Lemma reduce_sqdev_num (m : Q) (qs : list Q) (a : Q) :
  JS.reduce (fun sum val => JS.add sum (JS.Math_pow2 (JS.sub val (Num m))))
            (Num a) (map Num qs)
  = Num (fold_left (sq_dev m) qs a).
Proof.
  unfold JS.reduce. revert a.
  induction qs as [|q qs IH]; intros a; simpl; [reflexivity|].
  apply IH.
Qed.

Lemma fold_sqdev_nonneg (m : Q) (qs : list Q) (a : Q) :
  0 <= a -> 0 <= fold_left (sq_dev m) qs a.
Proof.
  revert a. induction qs as [|q qs IH]; intros a Ha; simpl; [exact Ha|].
  apply IH. unfold sq_dev.
  pose proof (Qsquare_nonneg (q + - m)). lra.
Qed.

Lemma fold_plus_zero (qs : list Q) (a : Q) :
  Forall (fun q => q == 0) qs -> a == 0 -> fold_left Qplus qs a == 0.
Proof.
  intros H. revert a.
  induction H as [|q qs Hq _ IH]; intros a Ha; simpl; [exact Ha|].
  apply IH. rewrite Ha, Hq. reflexivity.
Qed.

Lemma fold_sqdev_zero (m : Q) (qs : list Q) (a : Q) :
  m == 0 -> Forall (fun q => q == 0) qs -> a == 0 ->
  fold_left (sq_dev m) qs a == 0.
Proof.
  intros Hm H. revert a.
  induction H as [|q qs Hq _ IH]; intros a Ha; simpl; [exact Ha|].
  apply IH. unfold sq_dev. rewrite Ha, Hq, Hm. ring.
Qed.

(** ** The Laplacian responses of a buffer that covers the image *)

Lemma in_for_range (lo hi k : Z) :
  In k (for_range lo hi) <-> (lo <= k < hi)%Z.
Proof.
  unfold for_range. rewrite in_map_iff. split.
  - intros [n [<- Hn]]. apply in_seq in Hn. lia.
  - intros H. exists (Z.to_nat (k - lo)). split; [lia|].
    apply in_seq. lia.
Qed.

Lemma length_for_range (lo hi : Z) :
  List.length (for_range lo hi) = Z.to_nat (hi - lo).
Proof. unfold for_range. rewrite length_map, length_seq. reflexivity. Qed.

Lemma length_laplacian_of (d : list byte) (w h : Z) :
  List.length (laplacian_of d w h) = (Z.to_nat (h - 2) * Z.to_nat (w - 2))%nat.
Proof.
  unfold laplacian_of.
  replace (h - 2)%Z with (h - 1 - 1)%Z by lia.
  rewrite <- (length_for_range 1 (h - 1)).
  induction (for_range 1 (h - 1)) as [|y ys IH]; simpl; [reflexivity|].
  rewrite length_app, IH, length_map, length_for_range.
  replace (w - 1 - 1)%Z with (w - 2)%Z by lia. reflexivity.
Qed.

Lemma buffer_at_inside (d : list byte) (idx : Z) :
  (0 <= idx < Z.of_nat (List.length d))%Z ->
  exists b, In b d /\ buffer_at d idx = JS.of_Z (Z.of_N (Byte.to_N b)).
Proof.
  intros H. unfold buffer_at.
  destruct (Z.ltb_spec idx 0) as [Hneg|_]; [lia|].
  destruct (nth_error d (Z.to_nat idx)) as [b|] eqn:E.
  - exists b. split; [eapply nth_error_In; exact E | reflexivity].
  - apply nth_error_None in E. lia.
Qed.

(** A list of numbers all of which are rational values satisfying [P]. *)
Lemma rational_values (P : Q -> Prop) (l : list number) :
  Forall (fun v => exists q, v = Num q /\ P q) l ->
  exists qs, l = map Num qs /\ Forall P qs.
Proof.
  induction 1 as [|v l [q [-> Hq]] _ [qs [-> Hqs]]].
  - exists []. split; [reflexivity | constructor].
  - exists (q :: qs). split; [reflexivity | constructor; assumption].
Qed.

Lemma laplacian_of_Forall (P : number -> Prop) (d : list byte) (w h : Z) :
  (forall x y, (1 <= x < w - 1)%Z -> (1 <= y < h - 1)%Z -> P (lap_at d w x y)) ->
  Forall P (laplacian_of d w h).
Proof.
  intros H. unfold laplacian_of. apply Forall_flat_map.
  apply Forall_forall. intros y Hy. apply in_for_range in Hy.
  apply Forall_map, Forall_forall. intros x Hx. apply in_for_range in Hx.
  apply H; assumption.
Qed.

Lemma interior_index (w h x y dy dx : Z) :
  (1 <= x < w - 1)%Z -> (1 <= y < h - 1)%Z ->
  (-1 <= dy <= 1)%Z -> (-1 <= dx <= 1)%Z ->
  (0 <= (y + dy) * w + (x + dx) < w * h)%Z.
Proof. intros. nia. Qed.

Lemma lap_at_interior (d : list byte) (w h x y : Z) :
  (w * h <= Z.of_nat (List.length d))%Z ->
  (1 <= x < w - 1)%Z -> (1 <= y < h - 1)%Z ->
  exists q, lap_at d w x y = Num q /\ 0 <= q.
Proof.
  intros Hlen Hx Hy.
  assert (Hin : forall i, (exists dy dx, (-1 <= dy <= 1)%Z /\ (-1 <= dx <= 1)%Z /\
                             i = ((y + dy) * w + (x + dx))%Z) ->
            exists z, buffer_at d i = JS.of_Z z).
  { intros i [dy [dx [Hdy [Hdx ->]]]].
    destruct (@buffer_at_inside d ((y + dy) * w + (x + dx))) as [b [_ E]].
    - pose proof (@interior_index w h x y dy dx Hx Hy Hdy Hdx). lia.
    - eexists; exact E. }
  unfold lap_at.
  destruct (Hin (y * w + x)%Z) as [c ->]; [exists 0%Z, 0%Z; lia|].
  destruct (Hin ((y - 1) * w + x)%Z) as [t ->]; [exists (-1)%Z, 0%Z; lia|].
  destruct (Hin ((y + 1) * w + x)%Z) as [b ->]; [exists 1%Z, 0%Z; lia|].
  destruct (Hin (y * w + (x - 1))%Z) as [l ->]; [exists 0%Z, (-1)%Z; lia|].
  destruct (Hin (y * w + (x + 1))%Z) as [r ->]; [exists 0%Z, 1%Z; lia|].
  unfold JS.of_Z. cbv [JS.mul JS.add JS.Math_abs].
  eexists. split; [reflexivity | apply Qabs_nonneg].
Qed.

Lemma lap_at_flat (d : list byte) (c : byte) (w h x y : Z) :
  Forall (fun b => b = c) d ->
  (w * h <= Z.of_nat (List.length d))%Z ->
  (1 <= x < w - 1)%Z -> (1 <= y < h - 1)%Z ->
  exists q, lap_at d w x y = Num q /\ q == 0.
Proof.
  intros Hflat Hlen Hx Hy.
  assert (Hin : forall i, (exists dy dx, (-1 <= dy <= 1)%Z /\ (-1 <= dx <= 1)%Z /\
                             i = ((y + dy) * w + (x + dx))%Z) ->
            buffer_at d i = JS.of_Z (Z.of_N (Byte.to_N c))).
  { intros i [dy [dx [Hdy [Hdx ->]]]].
    destruct (@buffer_at_inside d ((y + dy) * w + (x + dx))) as [b [Hb E]].
    - pose proof (@interior_index w h x y dy dx Hx Hy Hdy Hdx). lia.
    - rewrite Forall_forall in Hflat. rewrite <- (Hflat b Hb). exact E. }
  unfold lap_at.
  rewrite (Hin (y * w + x)%Z) by (exists 0%Z, 0%Z; lia).
  rewrite (Hin ((y - 1) * w + x)%Z) by (exists (-1)%Z, 0%Z; lia).
  rewrite (Hin ((y + 1) * w + x)%Z) by (exists 1%Z, 0%Z; lia).
  rewrite (Hin (y * w + (x - 1))%Z) by (exists 0%Z, (-1)%Z; lia).
  rewrite (Hin (y * w + (x + 1))%Z) by (exists 0%Z, 1%Z; lia).
  unfold JS.of_Z. cbv [JS.mul JS.add JS.Math_abs].
  eexists. split; [reflexivity|].
  set (v := inject_Z (Z.of_N (Byte.to_N c))).
  assert (E : inject_Z (-4) * v + v + v + v + v == 0) by ring.
  rewrite E. reflexivity.
Qed.

(** ** Mean and variance of rational responses *)



Lemma mean_of_rational (qs : list Q) :
  qs <> [] -> mean_of (map Num qs) = Num (Qmean qs).
Proof.
  intros Hne. unfold mean_of, JS.of_Z, JS.of_nat, JS.of_Z.
  change (inject_Z 0) with 0.
  rewrite reduce_add_num, length_map.
  apply div_num_pos, of_nat_pos.
  destruct qs; [congruence | simpl; lia].
Qed.

Lemma variance_of_rational (qs : list Q) :
  qs <> [] -> variance_of (map Num qs) = Num (Qvariance qs).
Proof.
  intros Hne. unfold variance_of.
  rewrite (mean_of_rational Hne).
  unfold JS.of_Z, JS.of_nat, JS.of_Z. change (inject_Z 0) with 0.
  rewrite reduce_sqdev_num, length_map.
  apply div_num_pos, of_nat_pos.
  destruct qs; [congruence | simpl; lia].
Qed.

Lemma Qvariance_nonneg (qs : list Q) : qs <> [] -> 0 <= Qvariance qs.
Proof.
  intros Hne. unfold Qvariance.
  apply Qdiv_nonneg.
  - apply fold_sqdev_nonneg. apply Qle_refl.
  - apply of_nat_pos. destruct qs; [congruence | simpl; lia].
Qed.

Lemma Qvariance_flat (qs : list Q) :
  Forall (fun q => q == 0) qs -> Qvariance qs == 0.
Proof.
  intros H. unfold Qvariance. apply Qdiv_zero.
  apply fold_sqdev_zero; [| exact H | reflexivity].
  unfold Qmean. apply Qdiv_zero. apply fold_plus_zero; [exact H | reflexivity].
Qed.


Lemma score_of_rational_variance (v : Q) :
  JS.Math_min (JS.of_Z 100) (JS.mul (JS.div (Num v) (JS.of_Z 100)) (JS.of_Z 100))
  = Num (Qscore v).
Proof.
  unfold JS.of_Z. change (inject_Z 100) with 100.
  rewrite div_num_pos by reflexivity.
  unfold JS.mul, JS.Math_min, Qscore.
  destruct (Qle_bool 100 (v / 100 * 100)); reflexivity.
Qed.

Lemma Qscore_range (v : Q) : 0 <= v -> 0 <= Qscore v <= 100.
Proof.
  intros Hv. unfold Qscore.
  destruct (Qle_bool 100 (v / 100 * 100)) eqn:E.
  - split; [discriminate | apply Qle_refl].
  - assert (Hlt : ~ 100 <= v / 100 * 100).
    { intros C. apply Qle_bool_iff in C. congruence. }
    assert (Hs : v / 100 * 100 == v) by field.
    rewrite Hs in *. split; [exact Hv | lra].
Qed.

Lemma Qscore_zero (v : Q) : v == 0 -> Qscore v == 0.
Proof.
  intros Hv. unfold Qscore.
  assert (Hs : v / 100 * 100 == 0) by (rewrite Hv; reflexivity).
  destruct (Qle_bool 100 (v / 100 * 100)) eqn:E; [| exact Hs].
  apply Qle_bool_iff in E. rewrite Hs in E.
  exfalso. apply (Qle_not_lt _ _ E). reflexivity.
Qed.

(** ** Focus score *)

Lemma laplacian_nonempty (d : list byte) (w h : Z) :
  (3 <= w)%Z -> (3 <= h)%Z -> laplacian_of d w h <> [].
Proof.
  intros Hw Hh E. apply (f_equal (@List.length number)) in E.
  rewrite length_laplacian_of in E. simpl in E. nia.
Qed.

Lemma laplacian_empty (d : list byte) (w h : Z) :
  (w < 3)%Z \/ (h < 3)%Z -> laplacian_of d w h = [].
Proof.
  intros H. apply length_zero_iff_nil. rewrite length_laplacian_of.
  destruct H; [replace (Z.to_nat (w - 2)) with 0%nat by lia
              | replace (Z.to_nat (h - 2)) with 0%nat by lia]; lia.
Qed.

(** With no interior pixel the array of responses is empty, both divisions
    are 0/0, and the value returned is NaN: nothing is thrown. *)
Lemma focusScoreOf_small (image : RawImage) :
  (width image < 3)%Z \/ (height image < 3)%Z -> focusScoreOf image = NaN.
Proof.
  intros H. unfold focusScoreOf. rewrite (laplacian_empty _ H). reflexivity.
Qed.

Lemma map_Num_inj (qs zs : list Q) : map Num qs = map Num zs -> qs = zs.
Proof.
  revert zs. induction qs as [|q qs IH]; intros [|z zs] E; simpl in E;
    try discriminate; [reflexivity|].
  injection E as -> E. f_equal. apply IH; exact E.
Qed.

(** C3. For a buffer that covers a [width] x [height] image with
    [width >= 3] and [height >= 3], the variance of the Laplacian responses
    is a non-negative rational, the score returned lies in [0, 100], and
    when all samples are equal the variance and the score are 0. *)
Theorem focus_score_range (image : RawImage) :
  (3 <= width image)%Z -> (3 <= height image)%Z ->
  (width image * height image <= Z.of_nat (List.length (data image)))%Z ->
  exists v q,
    variance_of (laplacian_of (data image) (width image) (height image)) = Num v /\
    0 <= v /\
    focusScoreOf image = Num q /\ 0 <= q <= 100 /\
    ((exists c, Forall (fun b => b = c) (data image)) -> v == 0 /\ q == 0).
Proof.
  intros Hw Hh Hlen.
  destruct (@rational_values (fun q => 0 <= q)
              (laplacian_of (data image) (width image) (height image)))
    as [qs [E Hqs]].
  { apply laplacian_of_Forall. intros x y Hx Hy.
    eapply lap_at_interior; eassumption. }
  assert (Hne : qs <> []).
  { intros ->. apply (laplacian_nonempty (data image) Hw Hh). exact E. }
  assert (Hflat : (exists c, Forall (fun b => b = c) (data image)) ->
                  Forall (fun q => q == 0) qs).
  { intros [c Hc].
    destruct (@rational_values (fun q => q == 0)
                (laplacian_of (data image) (width image) (height image)))
      as [zs [Ez Hzs]].
    - apply laplacian_of_Forall. intros x y Hx Hy.
      eapply lap_at_flat; eassumption.
    - rewrite E in Ez. rewrite (map_Num_inj _ _ Ez). exact Hzs. }
  pose proof (Qvariance_nonneg Hne) as Hv.
  exists (Qvariance qs), (Qscore (Qvariance qs)).
  unfold focusScoreOf. rewrite E, (variance_of_rational Hne).
  split; [reflexivity|]. split; [exact Hv|].
  split; [apply score_of_rational_variance|].
  split; [apply Qscore_range; exact Hv|].
  intros Hc. split.
  - apply Qvariance_flat, Hflat, Hc.
  - apply Qscore_zero, Qvariance_flat, Hflat, Hc.
Qed.

Example focusScoreOf_frame_4x3 :
  exists q, focusScoreOf frame_4x3 = Num q /\ q == 225 # 4.
Proof. eexists. split; [vm_compute; reflexivity | reflexivity]. Qed.

Lemma focus_score_range_witness :
  exists v q,
    variance_of (laplacian_of (data frame_4x3) (width frame_4x3) (height frame_4x3))
      = Num v /\
    0 <= v /\
    focusScoreOf frame_4x3 = Num q /\ 0 <= q <= 100 /\
    ((exists c, Forall (fun b => b = c) (data frame_4x3)) -> v == 0 /\ q == 0).
Proof. apply focus_score_range; simpl; lia. Defined.

(** C4. On a frame narrower or lower than 3 pixels the computation does not
    fail: the array of responses is empty, the mean and the variance are
    0/0, and the value returned is NaN. *)
Theorem focus_score_without_interior_is_NaN (image : RawImage) :
  (width image < 3)%Z \/ (height image < 3)%Z ->
  laplacian_of (data image) (width image) (height image) = []
  /\ mean_of [] = NaN
  /\ variance_of [] = NaN
  /\ focusScoreOf image = NaN.
Proof.
  intros H. split; [now apply laplacian_empty|].
  split; [reflexivity|]. split; [reflexivity|]. now apply focusScoreOf_small.
Qed.

Lemma focus_score_without_interior_is_NaN_witness :
  laplacian_of (data frame_2x2) (width frame_2x2) (height frame_2x2) = []
  /\ mean_of [] = NaN
  /\ variance_of [] = NaN
  /\ focusScoreOf frame_2x2 = NaN.
Proof. apply focus_score_without_interior_is_NaN. simpl. lia. Defined.

(** ** The analysis of one video *)

Lemma nth_error_app_length {A : Type} (l : list A) (x : A) :
  nth_error (l ++ [x]) (List.length l) = Some x.
Proof. induction l as [|a l IH]; simpl; [reflexivity | exact IH]. Qed.

Lemma set_nth_app_length {A : Type} (l : list A) (x y : A) :
  set_nth (l ++ [x]) (List.length l) y = l ++ [y].
Proof. induction l as [|a l IH]; simpl; [reflexivity | now rewrite IH]. Qed.

Section AnalysisFacts.

Variable Blob : Type.
Variable ffmpeg_extract : string -> number -> Extraction Blob.
Variable sharp_grayscale_raw : Blob -> Result RawImage.
Variable sharp_resize_jpeg_base64 : option Blob -> Result string.

Local Abbreviation World := (World Blob).
Local Abbreviation analyzeVideo :=
  (analyzeVideo ffmpeg_extract sharp_grayscale_raw sharp_resize_jpeg_base64).
Local Abbreviation analyzeVideos :=
  (analyzeVideos ffmpeg_extract sharp_grayscale_raw sharp_resize_jpeg_base64).
Local Abbreviation analyze_from :=
  (analyze_from ffmpeg_extract sharp_grayscale_raw sharp_resize_jpeg_base64).
Local Abbreviation analysis_of :=
  (analysis_of ffmpeg_extract sharp_grayscale_raw sharp_resize_jpeg_base64).
Local Abbreviation iteration_effects :=
  (iteration_effects ffmpeg_extract sharp_grayscale_raw sharp_resize_jpeg_base64).
Local Abbreviation loop_effects :=
  (loop_effects ffmpeg_extract sharp_grayscale_raw sharp_resize_jpeg_base64).
Local Abbreviation after_analysis := (after_analysis ffmpeg_extract).

(** Scoring a frame reads the file system and changes nothing. *)
Lemma calculateFocusScore_run (w : World) (d : nat) (f : string)
      (entries : list (string * Blob)) :
  lookup_dir w d = Some entries ->
  calculateFocusScore sharp_grayscale_raw {| dir := d; name := f |} w
  = (file_score sharp_grayscale_raw entries f, w).
Proof.
  intros H. unfold calculateFocusScore, bind, read_input, file_score, lift, ret.
  simpl. rewrite H.
  destruct (assoc f entries) as [b|]; [|reflexivity].
  destruct (sharp_grayscale_raw b); reflexivity.
Qed.

Lemma Promise_all_scores (w : World) (d : nat) (names : list string)
      (entries : list (string * Blob)) :
  lookup_dir w d = Some entries ->
  Promise_all
    (map (fun frame => calculateFocusScore sharp_grayscale_raw frame)
         (map (fun f => {| dir := d; name := f |}) names)) w
  = (sequence (map (file_score sharp_grayscale_raw entries) names), w).
Proof.
  intros H. induction names as [|f names IH]; [reflexivity|].
  simpl. unfold bind at 1. rewrite (calculateFocusScore_run w d f H).
  destruct (file_score sharp_grayscale_raw entries f) as [a|e]; [|reflexivity].
  unfold bind at 1. rewrite IH.
  destruct (sequence _); reflexivity.
Qed.

Lemma generateThumbnail_run (w : World) (d : nat) (f : option string)
      (entries : list (string * Blob)) :
  lookup_dir w d = Some entries ->
  generateThumbnail sharp_resize_jpeg_base64
    (option_map (fun f' => {| dir := d; name := f' |}) f) w
  = (file_thumbnail sharp_resize_jpeg_base64 entries f, w).
Proof.
  intros H. unfold generateThumbnail, bind, read_input, file_thumbnail, lift, ret.
  destruct f as [f'|]; simpl.
  - rewrite H. destruct (assoc f' entries) as [b|]; [|reflexivity].
    destruct (sharp_resize_jpeg_base64 (Some b)); reflexivity.
  - destruct (sharp_resize_jpeg_base64 None); reflexivity.
Qed.

(** Extraction into the directory that [mkdtemp] has just created. *)
Lemma extractFrames_fresh (videoPath : string) (interval : number) (w : World)
      (dirs : list (option (list (string * Blob)))) :
  tempdirs w = dirs ++ [Some []] ->
  let run := ffmpeg_extract videoPath interval in
  let w2 := {| tempdirs := dirs ++ [Some (written run)];
               tmp_writable := tmp_writable w;
               trace := trace w ++ [RanFfmpeg videoPath];
               clips := clips w |} in
  extractFrames ffmpeg_extract videoPath (List.length dirs) interval w
  = (match failure run with
     | Some e => Throw e
     | None => Ok (map (fun f => {| dir := List.length dirs; name := f |})
                       (frame_names run))
     end, w2)
  /\ lookup_dir w2 (List.length dirs) = Some (written run).
Proof.
  intros Hd run w2.
  assert (Hdir : lookup_dir w2 (List.length dirs) = Some (written run)).
  { unfold lookup_dir, w2. simpl tempdirs. now rewrite nth_error_app_length. }
  split; [| exact Hdir].
  unfold extractFrames, bind, emit, write_files, lookup_dir.
  cbn [tempdirs tmp_writable trace clips].
  rewrite Hd, nth_error_app_length, set_nth_app_length. simpl app at 1.
  fold run. fold w2.
  destruct (failure run) as [e|]; [reflexivity|].
  unfold readdir. rewrite Hdir. reflexivity.
Qed.

(** The analysis of a video as a function of the collaborators: its
    outcome and the state it leaves. *)
Lemma analyzeVideo_run (video : VideoFile.t) (w : World) :
  analyzeVideo video w
  = (analysis_of (tmp_writable w) video, after_analysis video w).
Proof.
  unfold analyzeVideo, analysis_of, after_analysis.
  unfold bind at 1. unfold mkdtemp.
  destruct (tmp_writable w) eqn:Hw; [|reflexivity].
  unfold bind at 1.
  match goal with
  | |- context [extractFrames _ ?p _ ?i ?w1] =>
      destruct (@extractFrames_fresh p i w1 (tempdirs w) eq_refl) as [-> Hdir]
  end.
  cbn [tempdirs tmp_writable trace clips] in *.
  set (run := ffmpeg_extract (VideoFile.path video) (JS.of_Z 1)) in *.
  unfold analysis_effects.
  replace (trace w ++ [MadeTempDir; RanFfmpeg (VideoFile.path video)])
    with ((trace w ++ [MadeTempDir]) ++ [RanFfmpeg (VideoFile.path video)])
    by now rewrite <- app_assoc.
  set (w2 := {| tempdirs := tempdirs w ++ [Some (written run)] |}) in *.
  destruct (failure run) as [e|]; [reflexivity|].
  unfold bind at 1. rewrite (Promise_all_scores w2 _ (frame_names run) Hdir).
  destruct (sequence _) as [focusScores|e]; [|reflexivity].
  unfold bind at 1. rewrite nth_error_map, length_map.
  rewrite (generateThumbnail_run w2 _ _ Hdir).
  destruct (file_thumbnail _ _ _) as [thumbnail|e]; reflexivity.
Qed.

(** What a successful analysis went through. *)
Lemma analysis_of_Ok (writable : bool) (video : VideoFile.t) (clip : VideoClip.t) :
  analysis_of writable video = Ok clip ->
  let run := ffmpeg_extract (VideoFile.path video) (JS.of_Z 1) in
  let names := frame_names run in
  exists focusScores thumbnail,
    writable = true /\ failure run = None /\
    sequence (map (file_score sharp_grayscale_raw (written run)) names) = Ok focusScores /\
    file_thumbnail sharp_resize_jpeg_base64 (written run)
      (nth_error names (Nat.div (List.length names) 2)) = Ok thumbnail /\
    clip = clip_of video (JS.Math_round (mean_of focusScores)) thumbnail.
Proof.
  intros H. cbv zeta. unfold analysis_of in H.
  set (run := ffmpeg_extract (VideoFile.path video) (JS.of_Z 1)) in *.
  set (names := frame_names run) in *.
  destruct writable; [|discriminate].
  destruct (failure run); [discriminate|].
  destruct (sequence _) as [focusScores|]; [|discriminate].
  destruct (file_thumbnail _ _ _) as [thumbnail|]; [|discriminate].
  injection H as <-. exists focusScores, thumbnail. auto.
Qed.




Lemma sent_events_app (l1 l2 : list Effect) :
  sent_events (l1 ++ l2) = sent_events l1 ++ sent_events l2.
Proof. unfold sent_events. apply flat_map_app. Qed.

Lemma sent_events_Sent (p : AnalysisProgress.t) (l : list Effect) :
  sent_events (Sent p :: l) = p :: sent_events l.
Proof. reflexivity. Qed.

Lemma sent_events_iteration (writable : bool) (video : VideoFile.t) :
  sent_events (iteration_effects writable video) = [].
Proof.
  unfold iteration_effects, analysis_effects.
  rewrite sent_events_app.
  destruct writable; destruct (analysis_of _ video); reflexivity.
Qed.

(** *** The batch loop *)


Lemma analyze_from_run (remaining : list VideoFile.t) :
  forall (i total : nat) (analyzedClips : list VideoClip.t) (w : World),
  exists w',
    analyze_from remaining i total analyzedClips w
    = (Ok (analyzedClips ++ successes (map (analysis_of (tmp_writable w)) remaining)), w')
    /\ trace w' = trace w ++ loop_effects (tmp_writable w) total i remaining
    /\ tmp_writable w' = tmp_writable w
    /\ clips w' = clips w.
Proof.
  induction remaining as [|video rest IH]; intros i total acc w.
  - exists w. unfold loop_effects. simpl. unfold ret. now rewrite !app_nil_r.
  - cbn [analyze_from].
    unfold bind at 1. unfold sendProgress, emit.
    set (w1 := {| tempdirs := tempdirs w; tmp_writable := tmp_writable w;
                  trace := trace w ++ [Sent _]; clips := clips w |}).
    unfold bind at 1. unfold try_catch. unfold bind at 1.
    rewrite (analyzeVideo_run video w1).
    change (tmp_writable w1) with (tmp_writable w).
    assert (Hafter : tmp_writable (after_analysis video w1) = tmp_writable w
                     /\ clips (after_analysis video w1) = clips w
                     /\ trace (after_analysis video w1)
                        = trace w1 ++ analysis_effects (tmp_writable w) video).
    { unfold after_analysis. change (tmp_writable w1) with (tmp_writable w).
      destruct (tmp_writable w); cbn [tmp_writable clips trace analysis_effects];
        rewrite ?app_nil_r; auto. }
    destruct Hafter as [Hw [Hc Ht]].
    cbn [map successes flat_map].
    unfold iteration_effects.
    destruct (analysis_of (tmp_writable w) video) as [clip|e] eqn:Hres.
    + unfold ret at 1.
      destruct (IH (S i) total (acc ++ [clip]) (after_analysis video w1))
        as [w' [Hrun [Htr [Hw' Hc']]]].
      exists w'. rewrite Hrun, Hw, <- app_assoc. split; [reflexivity|].
      split; [| split; congruence].
      rewrite Htr, Hw, Ht. unfold w1.
      unfold loop_effects.
      cbn [trace indexed_from flat_map fst snd].
      unfold iteration_effects. rewrite Hres.
      rewrite app_nil_r, <- ?app_comm_cons, <- ?app_assoc. reflexivity.
    + unfold bind at 1. unfold emit, ret.
      set (w2 := {| tempdirs := tempdirs (after_analysis video w1) |}).
      destruct (IH (S i) total acc w2) as [w' [Hrun [Htr [Hw' Hc']]]].
      change (tmp_writable w2) with (tmp_writable (after_analysis video w1)) in *.
      change (clips w2) with (clips (after_analysis video w1)) in *.
      exists w'. rewrite Hrun, Hw. split; [reflexivity|].
      split; [| split; congruence].
      rewrite Htr, Hw. unfold w2. cbn [trace]. rewrite Ht. unfold w1.
      unfold loop_effects.
      cbn [trace indexed_from flat_map fst snd].
      unfold iteration_effects. rewrite Hres.
      rewrite <- ?app_comm_cons, <- ?app_assoc. reflexivity.
Qed.

Lemma sent_events_loop (writable : bool) (total : nat) (remaining : list VideoFile.t) :
  forall i,
    sent_events (loop_effects writable total i remaining)
    = map (fun iv => analyzing_event total (fst iv) (snd iv)) (indexed_from i remaining).
Proof.
  unfold loop_effects.
  induction remaining as [|video rest IH]; intros i; [reflexivity|].
  cbn [indexed_from flat_map map fst snd].
  rewrite sent_events_app, sent_events_Sent, sent_events_iteration. cbn [app].
  rewrite IH. reflexivity.
Qed.

(** C1. The handler of a batch of N videos returns normally; the clips it
    returns (and stores) are those of the videos whose analysis succeeds, in
    input order; it sends N 'analyzing' events, the one of index [i] with
    [current = i + 1] and [total = N] and before any effect of the
    analysis of that video, and after them one 'complete' event with
    [current = total = N]. *)
Theorem analyzeVideos_isolates_failures (videoFiles : list VideoFile.t) (w : World) :
  let N := List.length videoFiles in
  let analyzedClips := successes (map (fun video => fst (analyzeVideo video w)) videoFiles) in
  exists w',
    analyzeVideos videoFiles w = (Ok analyzedClips, w')
    /\ clips w' = analyzedClips
    /\ trace w' = trace w
                  ++ loop_effects (tmp_writable w) N 0 videoFiles
                  ++ [Sent (complete_event N)]
    /\ sent_events (trace w')
       = sent_events (trace w)
         ++ map (fun iv => analyzing_event N (fst iv) (snd iv)) (indexed_from 0 videoFiles)
         ++ [complete_event N].
Proof.
  intros N analyzedClips.
  assert (E : analyzedClips = successes (map (analysis_of (tmp_writable w)) videoFiles)).
  { unfold analyzedClips. f_equal. apply map_ext. intros video.
    now rewrite analyzeVideo_run. }
  rewrite E. clear E analyzedClips.
  destruct (analyze_from_run videoFiles 0 N [] w) as [w1 [Hrun [Htr [Hw Hc]]]].
  unfold analyzeVideos. fold N.
  unfold bind at 1. rewrite Hrun. cbn [app].
  unfold bind at 1. unfold sendProgress, emit.
  unfold bind at 1. unfold setClips, ret.
  eexists. split; [reflexivity|]. cbn [clips trace].
  split; [reflexivity|]. fold (complete_event N).
  assert (Ht : trace w1 ++ [Sent (complete_event N)]
               = trace w ++ loop_effects (tmp_writable w) N 0 videoFiles
                 ++ [Sent (complete_event N)]).
  { now rewrite Htr, <- app_assoc. }
  split; [exact Ht|].
  rewrite Ht, !sent_events_app, sent_events_loop. reflexivity.
Qed.

(** C6, as amended. The directory acquired for a video is never deleted by
    the analysis: whatever the outcome, when the analysis has finished the
    directory exists and holds what the extraction wrote into it, and the
    directories that existed before are as they were. *)
Theorem analyzeVideo_keeps_temp_dir (video : VideoFile.t) (w : World) :
  tmp_writable w = true ->
  let w' := snd (analyzeVideo video w) in
  let tempDir := List.length (tempdirs w) in
  fst (mkdtemp w) = Ok tempDir
  /\ lookup_dir w' tempDir
     = Some (written (ffmpeg_extract (VideoFile.path video) (JS.of_Z 1)))
  /\ List.length (tempdirs w') = S (List.length (tempdirs w))
  /\ forall d, (d < tempDir)%nat -> lookup_dir w' d = lookup_dir w d.
Proof.
  intros Hw w' tempDir. unfold w'. rewrite analyzeVideo_run. cbn [snd].
  unfold after_analysis, mkdtemp, lookup_dir. rewrite Hw.
  cbn [tempdirs fst]. split; [reflexivity|]. split.
  - unfold tempDir. now rewrite nth_error_app_length.
  - split; [rewrite length_app; simpl; lia|].
    intros d Hd. now rewrite nth_error_app1.
Qed.

End AnalysisFacts.

(** ** The handlers on a small project folder *)

(** Three videos of which the second cannot be decoded: two clips are
    returned, three 'analyzing' events and one 'complete' event are sent. *)
Example batch_with_one_failure :
  let run := Demo.analyzeVideos [Demo.vows; Demo.truncated; Demo.rings] Demo.start in
  (exists c1 c2, fst run = Ok [c1; c2]
                 /\ VideoClip.filename c1 = "vows.mp4"%string
                 /\ VideoClip.filename c2 = "rings.mov"%string)
  /\ map (fun p => (AnalysisProgress.stage p, AnalysisProgress.current p,
                    AnalysisProgress.total p))
         (sent_events (trace (snd run)))
     = [(AnalysisProgress.analyzing, 1, 3); (AnalysisProgress.analyzing, 2, 3);
        (AnalysisProgress.analyzing, 3, 3); (AnalysisProgress.complete, 3, 3)]%nat.
Proof.
  split.
  - eexists. eexists. split; [vm_compute; reflexivity|]. split; reflexivity.
  - vm_compute. reflexivity.
Qed.

(** The claim C6 fails on a successful analysis and on a failed one: in both
    the directory is still there afterwards. *)
Lemma temp_dir_left_behind :
  (exists clip, fst (Demo.analyzeVideo Demo.vows Demo.start) = Ok clip)
  /\ ~ temp_dir_removed Demo.ffmpeg_extract Demo.sharp_grayscale_raw
        Demo.sharp_resize_jpeg_base64 Demo.vows Demo.start
  /\ (exists e, fst (Demo.analyzeVideo Demo.truncated Demo.start) = Throw e)
  /\ ~ temp_dir_removed Demo.ffmpeg_extract Demo.sharp_grayscale_raw
        Demo.sharp_resize_jpeg_base64 Demo.truncated Demo.start.
Proof.
  split; [eexists; vm_compute; reflexivity|].
  split; [intros H; vm_compute in H; discriminate|].
  split; [eexists; vm_compute; reflexivity|].
  intros H; vm_compute in H; discriminate.
Qed.

Lemma analyzeVideo_keeps_temp_dir_witness :
  let w' := snd (Demo.analyzeVideo Demo.truncated Demo.start) in
  let tempDir := List.length (tempdirs Demo.start) in
  fst (mkdtemp Demo.start) = Ok tempDir
  /\ lookup_dir w' tempDir
     = Some (written (Demo.ffmpeg_extract (VideoFile.path Demo.truncated) (JS.of_Z 1)))
  /\ List.length (tempdirs w') = S (List.length (tempdirs Demo.start))
  /\ forall d, (d < tempDir)%nat -> lookup_dir w' d = lookup_dir Demo.start d.
Proof.
  apply (@analyzeVideo_keeps_temp_dir Demo.Blob Demo.ffmpeg_extract
           Demo.sharp_grayscale_raw Demo.sharp_resize_jpeg_base64
           Demo.truncated Demo.start).
  reflexivity.
Defined.


(** ** The FCPXML serializer *)

Lemma offset_of_snoc (done : list VideoClip.t) (clip : VideoClip.t)
      (rest : list VideoClip.t) :
  offset_of (done ++ clip :: rest) (S (List.length done))
  = JS.add (offset_of (done ++ clip :: rest) (List.length done)) (rendered_duration clip).
Proof.
  unfold offset_of, JS.reduce.
  replace (S (List.length done)) with (List.length (done ++ [clip]))
    by (rewrite length_app; simpl; lia).
  replace (done ++ clip :: rest) with ((done ++ [clip]) ++ rest)
    by (now rewrite <- app_assoc).
  rewrite firstn_app, Nat.sub_diag, firstn_all, firstn_O, app_nil_r.
  rewrite <- app_assoc. cbn [app].
  rewrite firstn_app, Nat.sub_diag, firstn_all, firstn_O, app_nil_r.
  now rewrite map_app, fold_left_app.
Qed.


Lemma filter_idempotent {A : Type} (f : A -> bool) (l : list A) :
  filter f (filter f l) = filter f l.
Proof.
  induction l as [|a l IH]; [reflexivity|]. simpl.
  destruct (f a) eqn:E; [simpl; now rewrite E, IH | exact IH].
Qed.

Lemma uniq_from_incl (seen l : list string) (p : string) :
  In p (uniq_from seen l) -> In p l.
Proof.
  revert seen. induction l as [|s l IH]; intros seen H; simpl in H; [contradiction|].
  destruct (existsb (String.eqb s) seen).
  - right. eapply IH; exact H.
  - destruct H as [<- | H]; [now left | right; eapply IH; exact H].
Qed.

Section ExportFacts.

Variable Number_toString : number -> string.

Local Abbreviation generateFCPXML := (generateFCPXML Number_toString).
Local Abbreviation resources_from := (resources_from Number_toString).
Local Abbreviation timelineClips_from := (timelineClips_from Number_toString).
Local Abbreviation asset_clip_xml := (asset_clip_xml Number_toString).
Local Abbreviation asset_xml := (asset_xml Number_toString).
Local Abbreviation fcpxml_document := (fcpxml_document Number_toString).
Local Abbreviation spine_of := (spine_of Number_toString).

Lemma timelineClips_from_layout (uniqueFiles : list string) (rest : list VideoClip.t) :
  forall done : list VideoClip.t,
    timelineClips_from uniqueFiles rest (offset_of (done ++ rest) (List.length done))
    = (map (fun ic => asset_clip_xml uniqueFiles (offset_of (done ++ rest) (fst ic)) (snd ic))
           (indexed_from (List.length done) rest),
       offset_of (done ++ rest) (List.length (done ++ rest))).
Proof.
  induction rest as [|clip rest IH]; intros done.
  - simpl. now rewrite app_nil_r.
  - cbn [timelineClips_from indexed_from map fst snd].
    fold (rendered_duration clip). rewrite <- offset_of_snoc.
    specialize (IH (done ++ [clip])).
    rewrite <- app_assoc in IH. cbn [app] in IH.
    replace (List.length (done ++ [clip])) with (S (List.length done)) in IH
      by (rewrite length_app; simpl; lia).
    rewrite IH. reflexivity.
Qed.

(** The resources are found for every path of the selected clips. *)
Lemma resources_from_total (selectedClips : list VideoClip.t) (uniqueFiles : list string) :
  (forall p, In p uniqueFiles -> In p (map (fun c => VideoClip.path c) selectedClips)) ->
  forall index, exists resourceLines,
    resources_from selectedClips index uniqueFiles = Ok resourceLines
    /\ List.length resourceLines = List.length uniqueFiles.
Proof.
  induction uniqueFiles as [|path rest IH]; intros Hin index.
  - exists []. split; reflexivity.
  - cbn [resources_from].
    destruct (find (fun c => String.eqb (VideoClip.path c) path) selectedClips)
      as [clip|] eqn:Hfind.
    + destruct (IH (fun p Hp => Hin p (or_intror Hp)) (S index)) as [others [-> Hlen]].
      eexists. split; [reflexivity | simpl; now rewrite Hlen].
    + exfalso. specialize (Hin path (or_introl eq_refl)).
      apply in_map_iff in Hin. destruct Hin as [c [Hc Hin]].
      pose proof (find_none _ _ Hfind c Hin) as Hn. cbn beta in Hn.
      rewrite Hc, String.eqb_refl in Hn. discriminate.
Qed.

(** The document produced for a list of clips. *)
Lemma generateFCPXML_run (clips : list VideoClip.t) (projectName : string) :
  let timeline := selected_clips clips in
  exists resourceLines,
    resources_from timeline 0 (uniq (map (fun c => VideoClip.path c) timeline))
    = Ok resourceLines
    /\ List.length resourceLines
       = List.length (uniq (map (fun c => VideoClip.path c) timeline))
    /\ generateFCPXML clips projectName
       = Ok (fcpxml_document projectName (join LF resourceLines)
               (join LF (spine_of timeline))
               (offset_of timeline (List.length timeline))).
Proof.
  intros timeline.
  destruct (@resources_from_total timeline (uniq (map (fun c => VideoClip.path c) timeline)))
    with (index := 0%nat) as [resourceLines [Hres Hlen]].
  { intros p Hp. eapply uniq_from_incl. exact Hp. }
  exists resourceLines. split; [exact Hres|]. split; [exact Hlen|].
  unfold generateFCPXML, spine_of. fold (selected_clips clips). fold timeline.
  rewrite Hres.
  pose proof (timelineClips_from_layout
                (uniq (map (fun c => VideoClip.path c) timeline)) timeline []) as Hlay.
  cbn [app List.length] in Hlay.
  change (JS.of_Z 0) with (offset_of timeline 0) at 1.
  rewrite Hlay. reflexivity.
Qed.



Lemma length_indexed_from {A : Type} (l : list A) :
  forall k, List.length (indexed_from k l) = List.length l.
Proof. induction l as [|a l IH]; intros k; simpl; [reflexivity | now rewrite IH]. Qed.

(** C9. The document depends on the selected clips only: unselected clips
    contribute neither an asset nor an asset-clip; there is one asset line
    per distinct path of a selected clip and one asset-clip element per
    selected clip; and when no clip is selected the serializer returns,
    without error, the document whose resources and spine are empty. *)
Theorem only_selected_clips_are_serialized (clips : list VideoClip.t) (projectName : string) :
  let timeline := selected_clips clips in
  let uniqueFiles := uniq (map (fun c => VideoClip.path c) timeline) in
  generateFCPXML clips projectName = generateFCPXML timeline projectName
  /\ Forall (fun c => In c clips /\ VideoClip.selected c = true) timeline
  /\ (exists resourceLines,
        resources_from timeline 0 uniqueFiles = Ok resourceLines
        /\ List.length resourceLines = List.length uniqueFiles
        /\ generateFCPXML clips projectName
           = Ok (fcpxml_document projectName (join LF resourceLines)
                   (join LF (spine_of timeline))
                   (offset_of timeline (List.length timeline))))
  /\ Forall (fun p => exists c, In c clips /\ VideoClip.selected c = true
                                /\ VideoClip.path c = p) uniqueFiles
  /\ List.length (spine_of timeline) = List.length timeline
  /\ (timeline = [] ->
      uniqueFiles = [] /\ spine_of timeline = []
      /\ generateFCPXML clips projectName
         = Ok (fcpxml_document projectName "" "" (JS.of_Z 0))).
Proof.
  intros timeline uniqueFiles.
  assert (Hsel : Forall (fun c => In c clips /\ VideoClip.selected c = true) timeline).
  { apply Forall_forall. intros c Hc. apply filter_In in Hc. exact Hc. }
  split.
  { unfold generateFCPXML, timeline, selected_clips.
    now rewrite filter_idempotent. }
  split; [exact Hsel|].
  split; [apply generateFCPXML_run|].
  split.
  { apply Forall_forall. intros p Hp. apply uniq_from_incl in Hp.
    apply in_map_iff in Hp. destruct Hp as [c [Hc Hin]].
    rewrite Forall_forall in Hsel. destruct (Hsel c Hin) as [H1 H2].
    exists c. auto. }
  split.
  { unfold spine_of. now rewrite length_map, length_indexed_from. }
  intros Hnil. unfold uniqueFiles.
  destruct (generateFCPXML_run clips projectName) as [resourceLines [Hres [_ Hgen]]].
  fold timeline in Hres, Hgen. rewrite Hgen. rewrite Hnil in *.
  cbn in Hres. injection Hres as <-. repeat split; reflexivity.
Qed.

End ExportFacts.

(** With no clip selected, the document has no asset and no asset-clip. *)
Example empty_selection_document :
  exists doc,
    DemoExport.generateFCPXML
      [DemoExport.clip "/wedding/A-Roll/vows.mp4" "vows.mp4" false 0 5]
      "Video Culler Timeline" = Ok doc
    /\ occursb "<asset" doc = false
    /\ root_element doc = Some "fcpxml"%string.
Proof. eexists. split; [vm_compute; reflexivity|]. split; vm_compute; reflexivity. Qed.


(** ** Occurrences in a text *)

Lemma string_app_assoc (a b c : string) : ((a ++ b) ++ c = a ++ (b ++ c))%string.
Proof. induction a as [|x a IH]; simpl; [reflexivity | now rewrite IH]. Qed.

Lemma string_app_nil_r (a : string) : (a ++ "" = a)%string.
Proof. induction a as [|x a IH]; simpl; [reflexivity | now rewrite IH]. Qed.



Lemma occurs_refl (s : string) : occurs s s.
Proof. exists ""%string, ""%string. simpl. now rewrite string_app_nil_r. Qed.

Lemma occurs_app_r (needle a b : string) : occurs needle b -> occurs needle (a ++ b).
Proof.
  intros [pre [post ->]]. exists (a ++ pre)%string, post.
  now rewrite string_app_assoc.
Qed.

Lemma occurs_app_l (needle a b : string) : occurs needle a -> occurs needle (a ++ b).
Proof.
  intros [pre [post ->]]. exists pre, (post ++ b)%string.
  now rewrite !string_app_assoc.
Qed.

Lemma occurs_head (needle rest : string) : occurs needle (needle ++ rest).
Proof. apply occurs_app_l, occurs_refl. Qed.


Lemma occurs_join (sep x : string) (l : list string) :
  In x l -> occurs x (join sep l).
Proof.
  unfold join. induction l as [|y l IH]; intros H; [contradiction|].
  destruct H as [-> | H].
  - destruct l; simpl; [apply occurs_refl | apply occurs_head].
  - destruct l as [|z l]; [contradiction|].
    change (String.concat sep (y :: z :: l))
      with (y ++ sep ++ String.concat sep (z :: l))%string.
    apply occurs_app_r, occurs_app_r, IH, H.
Qed.


(** ** Names in the document *)

Lemma uniq_from_complete (l : list string) :
  forall seen p, In p l -> In p seen \/ In p (uniq_from seen l).
Proof.
  induction l as [|s l IH]; intros seen p H; [contradiction|].
  cbn [uniq_from]. destruct (existsb (String.eqb s) seen) eqn:E.
  - destruct H as [<- | H]; [| apply IH; exact H].
    left. apply existsb_exists in E. destruct E as [x [Hx Heq]].
    apply String.eqb_eq in Heq. now subst.
  - destruct H as [<- | H]; [right; now left|].
    destruct (IH (s :: seen) p H) as [[<- | Hs] | Hu].
    + right. now left.
    + now left.
    + right. now right.
Qed.

Lemma uniq_complete (l : list string) (p : string) : In p l -> In p (uniq l).
Proof.
  intros H. destruct (uniq_from_complete l [] p H) as [[] | Hu]. exact Hu.
Qed.

Section NamesInDocument.

Variable Number_toString : number -> string.








End NamesInDocument.



(** ** The export handler *)

Section ExportHandlerFacts.

Variable Number_toString : number -> string.
Variable showSaveDialog : string -> SaveDialogReturnValue.
Variable write_error : string -> option string.

Local Abbreviation exportTimeline :=
  (exportTimeline Number_toString showSaveDialog write_error).
Local Abbreviation generateFCPXML := (generateFCPXML Number_toString).
Local Abbreviation project_name_of := (project_name_of Number_toString).
Local Abbreviation dialog_answer := (dialog_answer Number_toString showSaveDialog).

(** A successful export has written the FCPXML document of the clips. *)
Lemma exportTimeline_success (clips : list VideoClip.t) (options : list (string * JSValue))
      (disk disk' : Disk) (path : string) :
  exportTimeline clips options disk = (ExportSuccess path, disk') ->
  canceled (dialog_answer options) = false
  /\ filePath (dialog_answer options) = Some path
  /\ write_error path = None
  /\ exists xml,
       generateFCPXML clips (project_name_of options) = Ok xml
       /\ disk' = {| files := (path, xml) :: files disk; console := console disk |}.
Proof.
  unfold exportTimeline.
  fold (dialog_answer options). fold (project_name_of options).
  destruct (canceled (dialog_answer options)); [discriminate|].
  destruct (filePath (dialog_answer options)) as [p|]; [|discriminate].
  destruct (String.eqb p ""); [discriminate|].
  destruct (generateFCPXML clips (project_name_of options)) as [xml|e]; [|discriminate].
  unfold writeFile. destruct (write_error p) as [e|] eqn:Hw; [discriminate|].
  intros H. injection H as <- <-.
  split; [reflexivity|]. split; [reflexivity|]. split; [exact Hw|].
  exists xml. split; reflexivity.
Qed.



End ExportHandlerFacts.

Lemma document_is_fcpxml (Number_toString : number -> string)
      (projectName resources timelineClips : string) (total : number) :
  let doc := fcpxml_document Number_toString projectName resources timelineClips total in
  String.prefix fcpxml_header doc = true
  /\ root_element doc = Some "fcpxml"%string
  /\ occurs format_line doc.
Proof.
  intros doc. split; [reflexivity|]. split; [reflexivity|].
  unfold doc, fcpxml_document. apply occurs_join. do 4 right. left. reflexivity.
Qed.




(** The claim C8 fails: a request for the Premiere dialect is answered with
    an FCPXML document. *)
Lemma premiere_request_gets_fcpxml :
  requested_format DemoNames.premiere_at_17 = Some premiere
  /\ (exists disk' text,
        DemoExport.exportTimeline DemoExport.three_clips DemoNames.premiere_at_17
                                  DemoExport.empty_disk
        = (ExportSuccess "/exports/Wedding Timeline.fcpxml", disk')
        /\ file_at (files disk') "/exports/Wedding Timeline.fcpxml" = Some text
        /\ root_element text = Some "fcpxml"%string)
  /\ ~ written_in_requested_format print_number DemoExport.showSaveDialog
        DemoExport.write_error DemoExport.three_clips DemoNames.premiere_at_17
        DemoExport.empty_disk.
Proof.
  split; [reflexivity|]. split.
  - eexists. eexists. split; [vm_compute; reflexivity|].
    split; [vm_compute; reflexivity | vm_compute; reflexivity].
  - intros H.
    destruct (DemoExport.exportTimeline DemoExport.three_clips DemoNames.premiere_at_17
                DemoExport.empty_disk) as [[path|m] disk'] eqn:E;
      [| vm_compute in E; discriminate E].
    destruct (file_at (files disk') path) as [text|] eqn:F.
    + specialize (H premiere path disk' text eq_refl E F).
      vm_compute in E. injection E as <- <-.
      vm_compute in F. injection F as <-.
      vm_compute in H. discriminate H.
    + vm_compute in E. injection E as <- <-. vm_compute in F. discriminate F.
Qed.

(** C8, as amended. The handler has one serializer, that of FCPXML 1.10:
    whatever the options of a request say, also of its format, the text
    written by a successful export at the path the user chose is the FCPXML
    document of the clips, with the FCPXML header and root element. *)
Theorem export_writes_fcpxml (Number_toString : number -> string)
        (showSaveDialog : string -> SaveDialogReturnValue)
        (write_error : string -> option string)
        (clips : list VideoClip.t) (options : list (string * JSValue))
        (disk disk' : Disk) (path : string) :
  exportTimeline Number_toString showSaveDialog write_error clips options disk
  = (ExportSuccess path, disk') ->
  filePath (dialog_answer Number_toString showSaveDialog options) = Some path
  /\ exists xml,
       generateFCPXML Number_toString clips (project_name_of Number_toString options)
       = Ok xml
       /\ file_at (files disk') path = Some xml
       /\ String.prefix fcpxml_header xml = true
       /\ root_element xml = Some "fcpxml"%string.
Proof.
  intros Hrun.
  destruct (@exportTimeline_success _ _ _ _ _ _ _ _ Hrun) as [_ [Hp [_ [xml [Hxml ->]]]]].
  split; [exact Hp|]. exists xml. split; [exact Hxml|].
  split; [cbn [files file_at]; now rewrite String.eqb_refl|].
  destruct (generateFCPXML_run Number_toString clips
              (project_name_of Number_toString options)) as [lines [_ [_ Hdoc]]].
  rewrite Hdoc in Hxml. injection Hxml as <-. split; apply document_is_fcpxml.
Qed.

Lemma export_writes_fcpxml_witness :
  exists disk',
    DemoExport.exportTimeline DemoExport.three_clips DemoNames.premiere_at_17
                              DemoExport.empty_disk
    = (ExportSuccess "/exports/Wedding Timeline.fcpxml", disk')
    /\ exists xml,
         file_at (files disk') "/exports/Wedding Timeline.fcpxml" = Some xml
         /\ root_element xml = Some "fcpxml"%string.
Proof.
  eexists. split; [vm_compute; reflexivity|].
  destruct (@export_writes_fcpxml print_number DemoExport.showSaveDialog
              DemoExport.write_error DemoExport.three_clips DemoNames.premiere_at_17
              DemoExport.empty_disk _ _ ltac:(vm_compute; reflexivity))
    as [_ [xml [_ [Hfile [_ Hroot]]]]].
  exists xml. split; [exact Hfile | exact Hroot].
Defined.

(** * Properties of the rest of the code *)

(** ** The clip store of the main process *)

Lemma set_selected_same (c : VideoClip.t) : set_selected c (VideoClip.selected c) = c.
Proof. destruct c; reflexivity. Qed.

Lemma set_selected_twice (c : VideoClip.t) (a b : bool) :
  set_selected (set_selected c a) b = set_selected c b.
Proof. reflexivity. Qed.

Lemma toggle_clip_twice (c : VideoClip.t) :
  set_selected (set_selected c (negb (VideoClip.selected c)))
               (negb (VideoClip.selected (set_selected c (negb (VideoClip.selected c)))))
  = c.
Proof.
  rewrite set_selected_twice. cbn [VideoClip.selected set_selected].
  rewrite negb_involutive. apply set_selected_same.
Qed.

(** X1. Toggling the selection of the same id twice gives back the store as
    it was, whether a clip has that id or not. *)
Theorem toggleSelection_involutive (clipId : string) (clips : list VideoClip.t) :
  toggleSelection clipId (toggleSelection clipId clips) = clips.
Proof.
  induction clips as [|c rest IH]; [reflexivity|].
  cbn [toggleSelection]. destruct (String.eqb (VideoClip.id c) clipId) eqn:E.
  - cbn [toggleSelection]. change (VideoClip.id (set_selected c _)) with (VideoClip.id c).
    rewrite E. now rewrite toggle_clip_twice.
  - cbn [toggleSelection]. rewrite E. now rewrite IH.
Qed.

Lemma toggleSelection_cases (clipId : string) (clips : list VideoClip.t) :
  (Forall (fun c => VideoClip.id c <> clipId) clips
   /\ toggleSelection clipId clips = clips)
  \/ (exists before clip after,
         clips = before ++ clip :: after
         /\ Forall (fun c => VideoClip.id c <> clipId) before
         /\ VideoClip.id clip = clipId
         /\ toggleSelection clipId clips
            = before ++ set_selected clip (negb (VideoClip.selected clip)) :: after).
Proof.
  induction clips as [|c rest IH].
  - left. split; [constructor | reflexivity].
  - cbn [toggleSelection]. destruct (String.eqb (VideoClip.id c) clipId) eqn:E.
    + right. exists [], c, rest. apply String.eqb_eq in E. repeat split; auto.
    + apply String.eqb_neq in E. destruct IH as [[Hall Heq] | [before [clip [after H]]]].
      * left. split; [constructor; assumption | now rewrite Heq].
      * right. destruct H as [-> [Hb [Hid Ht]]].
        exists (c :: before), clip, after. rewrite Ht.
        repeat split; auto.
Qed.



Lemma findIndex_id_spec (clips : list VideoClip.t) (wanted : option string) :
  match findIndex_id clips wanted with
  | None =>
      wanted = None \/ Forall (fun c => Some (VideoClip.id c) <> wanted) clips
  | Some i =>
      exists before clip after,
        clips = before ++ clip :: after
        /\ List.length before = i
        /\ Forall (fun c => Some (VideoClip.id c) <> wanted) before
        /\ Some (VideoClip.id clip) = wanted
  end.
Proof.
  destruct wanted as [w|].
  2:{ destruct clips; simpl; auto. }
  induction clips as [|c rest IH]; simpl.
  - right. constructor.
  - destruct (String.eqb (VideoClip.id c) w) eqn:E.
    + apply String.eqb_eq in E. exists [], c, rest. subst. repeat split; auto.
    + apply String.eqb_neq in E.
      destruct (findIndex_id rest (Some w)) as [i|]; simpl.
      * destruct IH as [before [clip [after [-> [Hl [Hb Hc]]]]]].
        exists (c :: before), clip, after. simpl. repeat split; auto.
        constructor; [congruence | assumption].
      * right. destruct IH as [H|H]; [discriminate|].
        constructor; [congruence | assumption].
Qed.

Lemma assign_at_middle (before after : list VideoClip.t) (old new : VideoClip.t) :
  assign_at (before ++ old :: after) (List.length before) new = before ++ new :: after.
Proof. induction before as [|b before IH]; simpl; [reflexivity | now rewrite IH]. Qed.

Lemma nth_error_middle {A : Type} (before after : list A) (x : A) :
  nth_error (before ++ x :: after) (List.length before) = Some x.
Proof. induction before as [|b before IH]; simpl; [reflexivity | exact IH]. Qed.


(** X4. Neither handler of the store changes the ids of the clips, their
    number or their order. *)
Theorem store_handlers_keep_ids (clips : list VideoClip.t) :
  (forall clipId,
      map (fun c => VideoClip.id c) (toggleSelection clipId clips)
      = map (fun c => VideoClip.id c) clips)
  /\ (forall updatedClip,
         map (fun c => VideoClip.id c) (updateClip updatedClip clips)
         = map (fun c => VideoClip.id c) clips).
Proof.
  split.
  - intros clipId. induction clips as [|c rest IH]; [reflexivity|].
    cbn [toggleSelection]. destruct (String.eqb (VideoClip.id c) clipId);
      cbn [map]; [reflexivity | now rewrite IH].
  - intros updatedClip. unfold updateClip.
    pose proof (findIndex_id_spec clips (PartialVideoClip.id updatedClip)) as H.
    destruct (findIndex_id clips (PartialVideoClip.id updatedClip)) as [i|];
      [| reflexivity].
    destruct H as [before [clip [after [-> [<- [_ Hid]]]]]].
    rewrite nth_error_middle, assign_at_middle, !map_app. cbn [map]. do 2 f_equal.
    unfold merge_clip. cbn [VideoClip.id]. rewrite <- Hid. reflexivity.
Qed.

(** ** The two stores *)

Lemma toggled_single (before after : list VideoClip.t) (clip : VideoClip.t) :
  Forall (fun c => VideoClip.id c <> VideoClip.id clip) before ->
  Forall (fun c => VideoClip.id c <> VideoClip.id clip) after ->
  Store.toggled (VideoClip.id clip) (before ++ clip :: after)
  = before ++ set_selected clip (negb (VideoClip.selected clip)) :: after.
Proof.
  intros Hb Ha. unfold Store.toggled. rewrite map_app. cbn [map].
  rewrite String.eqb_refl. f_equal; [| f_equal].
  - rewrite <- (map_id before) at 2. apply map_ext_in. intros c Hc.
    rewrite Forall_forall in Hb. pose proof (Hb c Hc) as Hne. apply String.eqb_neq in Hne. now rewrite Hne.
  - rewrite <- (map_id after) at 2. apply map_ext_in. intros c Hc.
    rewrite Forall_forall in Ha. pose proof (Ha c Hc) as Hne. apply String.eqb_neq in Hne. now rewrite Hne.
Qed.


Lemma toggled_absent (clipId : string) (clips : list VideoClip.t) :
  Forall (fun c => VideoClip.id c <> clipId) clips -> Store.toggled clipId clips = clips.
Proof.
  intros H. unfold Store.toggled. rewrite <- (map_id clips) at 2.
  apply map_ext_in. intros c Hc. rewrite Forall_forall in H.
  pose proof (H c Hc) as Hne. apply String.eqb_neq in Hne. now rewrite Hne.
Qed.

Lemma NoDup_ids_split (before after : list VideoClip.t) (clip : VideoClip.t) :
  NoDup (map (fun c => VideoClip.id c) (before ++ clip :: after)) ->
  Forall (fun c => VideoClip.id c <> VideoClip.id clip) before
  /\ Forall (fun c => VideoClip.id c <> VideoClip.id clip) after.
Proof.
  rewrite map_app. cbn [map]. intros H.
  pose proof (NoDup_remove_2 _ _ _ H) as Hnot.
  split; apply Forall_forall; intros c Hc E; apply Hnot, in_or_app;
    [left | right]; rewrite <- E; apply in_map_iff; exists c; auto.
Qed.

(** X5. When no two clips have the same id, the toggle of the renderer's
    store and the toggle of the main process do the same to a list of clips,
    so that two stores that agree still agree after [toggleClipSelection]. *)
Theorem stores_stay_in_step (clipId : string) (clips : list VideoClip.t) :
  NoDup (map (fun c => VideoClip.id c) clips) ->
  Store.toggled clipId clips = toggleSelection clipId clips
  /\ toggleClipSelection clipId {| renderer := clips; main := clips |}
     = {| renderer := toggleSelection clipId clips;
          main := toggleSelection clipId clips |}.
Proof.
  intros Hnd.
  assert (E : Store.toggled clipId clips = toggleSelection clipId clips).
  { destruct (toggleSelection_cases clipId clips)
      as [[Hall ->] | [before [clip [after [-> [Hb [<- ->]]]]]]].
    - now apply toggled_absent.
    - apply toggled_single; [exact Hb | now apply (@NoDup_ids_split before after clip)]. }
  split; [exact E|]. unfold toggleClipSelection. cbn [renderer main]. now rewrite E.
Qed.

Lemma stores_stay_in_step_witness :
  Store.toggled "/wedding/A-Roll/kiss.mp4" DemoExport.three_clips
  = toggleSelection "/wedding/A-Roll/kiss.mp4" DemoExport.three_clips
  /\ toggleClipSelection "/wedding/A-Roll/kiss.mp4"
       {| renderer := DemoExport.three_clips; main := DemoExport.three_clips |}
     = {| renderer := toggleSelection "/wedding/A-Roll/kiss.mp4" DemoExport.three_clips;
          main := toggleSelection "/wedding/A-Roll/kiss.mp4" DemoExport.three_clips |}.
Proof.
  apply stores_stay_in_step.
  repeat constructor; simpl; intuition discriminate.
Defined.

(** ** The buttons of the export bar *)






(** ** Durations *)


(** ** Minutes and seconds *)

Lemma Qfloor_unique (x : Q) (z : Z) :
  inject_Z z <= x -> x < inject_Z (z + 1) -> Qfloor x = z.
Proof.
  intros Hle Hlt.
  pose proof (Qfloor_le x) as Hf. pose proof (Qlt_floor x) as Hg.
  assert (H1 : (z < Qfloor x + 1)%Z).
  { rewrite Zlt_Qlt. eapply Qle_lt_trans; eassumption. }
  assert (H2 : (Qfloor x < z + 1)%Z).
  { rewrite Zlt_Qlt. eapply Qle_lt_trans; eassumption. }
  lia.
Qed.

Lemma Qfloor_div_60 (q : Q) : Qfloor (q / 60) = (Qfloor q / 60)%Z.
Proof.
  pose proof (Qfloor_le q) as Hf. pose proof (Qlt_floor q) as Hg.
  set (n := Qfloor q) in *.
  pose proof (Z.div_mod n 60 ltac:(lia)) as Hdm.
  pose proof (Z.mod_pos_bound n 60 ltac:(lia)) as Hb.
  assert (Hlo : inject_Z 60 * inject_Z (n / 60) <= inject_Z n).
  { rewrite <- inject_Z_mult, <- Zle_Qle. lia. }
  assert (Hhi : inject_Z (n + 1) <= inject_Z 60 * inject_Z (n / 60 + 1)).
  { rewrite <- inject_Z_mult, <- Zle_Qle. lia. }
  change (inject_Z 60) with 60 in *.
  apply Qfloor_unique.
  - apply Qle_shift_div_l; [reflexivity|]. lra.
  - apply Qlt_shift_div_r; [reflexivity|]. lra.
Qed.

Lemma Qfloor_sub_int (q : Q) (m : Z) :
  Qfloor (q - 60 * inject_Z m) = (Qfloor q - 60 * m)%Z.
Proof.
  pose proof (Qfloor_le q) as Hf. pose proof (Qlt_floor q) as Hg.
  apply Qfloor_unique.
  - unfold Z.sub. rewrite inject_Z_plus, inject_Z_opp, inject_Z_mult.
    change (inject_Z 60) with 60. lra.
  - replace (Qfloor q - 60 * m + 1)%Z with ((Qfloor q + 1) - 60 * m)%Z by lia.
    unfold Z.sub. rewrite inject_Z_plus, inject_Z_opp, inject_Z_mult.
    change (inject_Z 60) with 60. lra.
Qed.

(** X9. For a duration that is not negative, the time shown is the number of
    whole minutes, a colon, and the whole seconds left over, which are
    between 0 and 59 and are padded to two characters. *)
Theorem formatTime_minutes_seconds (Number_toString : number -> string) (q : Q) :
  0 <= q ->
  formatTime Number_toString (Num q)
  = (Number_toString (JS.of_Z (Qfloor q / 60))
     ++ ":" ++ padStart 2 "0" (Number_toString (JS.of_Z (Qfloor q mod 60))))%string
  /\ (0 <= Qfloor q / 60)%Z
  /\ (0 <= Qfloor q mod 60 < 60)%Z.
Proof.
  intros Hq.
  assert (Hn : (0 <= Qfloor q)%Z).
  { change 0%Z with (Qfloor 0). now apply Qfloor_resp_le. }
  split; [| split; [apply Z.div_pos; lia | apply Z.mod_pos_bound; lia]].
  unfold formatTime, JS.of_Z. change (inject_Z 60) with 60.
  rewrite div_num_pos by reflexivity.
  cbn [JSMore.Math_floor JSMore.rem]. change (Qeq_bool 60 0) with false. cbn iota.
  unfold JSMore.Qtruncate.
  assert (Hd : Qle_bool 0 (q / 60) = true).
  { apply Qle_bool_iff. apply Qle_shift_div_l; [reflexivity | lra]. }
  rewrite Hd. cbn [JSMore.Math_floor]. unfold JS.of_Z.
  rewrite Qfloor_sub_int, Qfloor_div_60.
  replace (Qfloor q - 60 * (Qfloor q / 60))%Z with (Qfloor q mod 60)%Z
    by (rewrite Z.mod_eq by lia; lia).
  reflexivity.
Qed.

Lemma formatTime_minutes_seconds_witness :
  formatTime print_number (Num (251 # 2))
  = (print_number (JS.of_Z (Qfloor (251 # 2) / 60))
     ++ ":" ++ padStart 2 "0" (print_number (JS.of_Z (Qfloor (251 # 2) mod 60))))%string
  /\ (0 <= Qfloor (251 # 2) / 60)%Z
  /\ (0 <= Qfloor (251 # 2) mod 60 < 60)%Z.
Proof. apply formatTime_minutes_seconds. discriminate. Defined.

(** ** Exporting from the export bar *)


(** ** Folders of the grid *)

Lemma uniq_from_NoDup (l : list string) :
  forall seen, NoDup (uniq_from seen l)
               /\ forall p, In p (uniq_from seen l) -> ~ In p seen.
Proof.
  induction l as [|s l IH]; intros seen; cbn [uniq_from].
  - split; [constructor | intros p []].
  - destruct (existsb (String.eqb s) seen) eqn:E; [apply IH|].
    destruct (IH (s :: seen)) as [Hnd Hnot]. split.
    + constructor; [| exact Hnd]. intros Hin. apply (Hnot s Hin). now left.
    + intros p [<- | Hp].
      * intros Hin. assert (existsb (String.eqb s) seen = true); [| congruence].
        apply existsb_exists. exists s. split; [exact Hin | apply String.eqb_refl].
      * intros Hin. apply (Hnot p Hp). now right.
Qed.

(** X11. The folders offered by the filter are the directories of the clips,
    each once; choosing one of them shows the clips of that directory, in
    their order, and at least one; "all" shows every clip. *)
Theorem folder_filter (clips : list VideoClip.t) :
  NoDup (directories clips)
  /\ (forall c, In c clips -> In (VideoClip.directory c) (directories clips))
  /\ filteredClips "all" clips = clips
  /\ (forall d, d <> "all"%string ->
                filteredClips d clips
                = filter (fun c => String.eqb (VideoClip.directory c) d) clips)
  /\ (forall d, In d (directories clips) -> filteredClips d clips <> []).
Proof.
  unfold directories. split; [apply (uniq_from_NoDup _ [])|].
  split.
  { intros c Hc. apply uniq_complete, in_map_iff. exists c. auto. }
  split.
  { unfold filteredClips. change (String.eqb "all" "all") with true. cbn iota.
    induction clips as [|c l IH]; [reflexivity|]. cbn [filter]. now rewrite IH. }
  split.
  { intros d Hd. unfold filteredClips. apply String.eqb_neq in Hd. now rewrite Hd. }
  intros d Hd. apply uniq_from_incl, in_map_iff in Hd. destruct Hd as [c [<- Hc]].
  intros Hnil.
  assert (Hin : In c (filteredClips (VideoClip.directory c) clips)).
  { unfold filteredClips. apply filter_In. split; [exact Hc|].
    destruct (String.eqb (VideoClip.directory c) "all"); [reflexivity|].
    apply String.eqb_refl. }
  rewrite Hnil in Hin. destruct Hin.
Qed.

(** ** The frames of a video *)






Section FramesFacts.

Variable Blob : Type.
Variable ffmpeg_extract : string -> number -> Extraction Blob.



End FramesFacts.


(** ** From the analysis to the export *)

Lemma successes_Forall {A : Type} (P : A -> Prop) (l : list (Result A)) :
  Forall (fun r => match r with Ok a => P a | Throw _ => True end) l ->
  Forall P (successes l).
Proof.
  induction 1 as [|[a|e] l H _ IH]; cbn [successes flat_map app] in *;
    [constructor | constructor; assumption | exact IH].
Qed.

(** X13. The clips a batch analysis returns and stores are all unselected and
    span their whole video, so that an export right after the analysis has
    nothing to export: the serializer gives the empty document for them, and
    the export bar only asks to select a clip. *)
Theorem fresh_analysis_has_nothing_to_export
        (Blob : Type) (ffmpeg_extract : string -> number -> Extraction Blob)
        (sharp_grayscale_raw : Blob -> Result RawImage)
        (sharp_resize_jpeg_base64 : option Blob -> Result string)
        (Number_toString : number -> string)
        (showSaveDialog : string -> SaveDialogReturnValue)
        (write_error : string -> option string)
        (videoFiles : list VideoFile.t) (w : World Blob) :
  exists analyzedClips w',
    analyzeVideos ffmpeg_extract sharp_grayscale_raw sharp_resize_jpeg_base64 videoFiles w
    = (Ok analyzedClips, w')
    /\ clips w' = analyzedClips
    /\ Forall (fun c => VideoClip.selected c = false
                        /\ VideoClip.inPoint c = JS.of_Z 0
                        /\ VideoClip.outPoint c = VideoClip.duration c) analyzedClips
    /\ (forall projectName,
          generateFCPXML Number_toString analyzedClips projectName
          = Ok (fcpxml_document Number_toString projectName "" "" (JS.of_Z 0)))
    /\ (forall disk,
          handleExport Number_toString showSaveDialog write_error analyzedClips disk
          = ([Alert "Please select at least one clip to export."], disk)).
Proof.
  destruct (analyze_from_run ffmpeg_extract sharp_grayscale_raw sharp_resize_jpeg_base64
              videoFiles 0 (List.length videoFiles) [] w) as [w1 [Hrun _]].
  cbn [app] in Hrun.
  set (analyzedClips :=
         successes (map (analysis_of ffmpeg_extract sharp_grayscale_raw
                           sharp_resize_jpeg_base64 (tmp_writable w)) videoFiles)) in *.
  assert (Hall : Forall (fun c => VideoClip.selected c = false
                                  /\ VideoClip.inPoint c = JS.of_Z 0
                                  /\ VideoClip.outPoint c = VideoClip.duration c)
                        analyzedClips).
  { apply successes_Forall, Forall_map, Forall_forall. intros video _.
    destruct (analysis_of _ _ _ _ video) as [clip|e] eqn:E; [| exact I].
    destruct (analysis_of_Ok _ _ _ _ _ E) as [scores [thumb [_ [_ [_ [_ ->]]]]]].
    repeat split. }
  assert (Hnone : filter (fun c => VideoClip.selected c) analyzedClips = []).
  { clear - Hall. induction Hall as [|c l [Hc _] _ IH]; [reflexivity|].
    cbn [filter]. now rewrite Hc. }
  eexists. eexists. split.
  { unfold analyzeVideos. unfold bind at 1. rewrite Hrun.
    unfold bind at 1. unfold sendProgress, emit. unfold bind at 1.
    unfold setClips, ret. reflexivity. }
  split; [reflexivity|]. split; [exact Hall|]. split.
  - intros projectName. unfold generateFCPXML. now rewrite Hnone.
  - intros disk. unfold handleExport. now rewrite Hnone.
Qed.

(** ** The progress bar *)



(** ** The focus score and the brightness of a frame *)

Lemma related_values (R : Q -> Q -> Prop) {A : Type} (f1 f2 : A -> number) (xs : list A) :
  (forall x, In x xs -> exists a b, f1 x = Num a /\ f2 x = Num b /\ R a b) ->
  exists qs1 qs2,
    map f1 xs = map Num qs1 /\ map f2 xs = map Num qs2 /\ Forall2 R qs1 qs2.
Proof.
  induction xs as [|x xs IH]; intros H.
  - exists [], []. repeat split; constructor.
  - destruct (H x (or_introl eq_refl)) as [a [b [Ha [Hb Hab]]]].
    destruct (IH (fun y Hy => H y (or_intror Hy))) as [qs1 [qs2 [E1 [E2 HR]]]].
    exists (a :: qs1), (b :: qs2). cbn [map]. rewrite Ha, Hb, E1, E2.
    repeat split. constructor; assumption.
Qed.

Lemma related_laplacians (R : Q -> Q -> Prop) (d1 d2 : list byte) (w h : Z) :
  (forall x y, (1 <= x < w - 1)%Z -> (1 <= y < h - 1)%Z ->
               exists a b, lap_at d1 w x y = Num a /\ lap_at d2 w x y = Num b /\ R a b) ->
  exists qs1 qs2,
    laplacian_of d1 w h = map Num qs1 /\ laplacian_of d2 w h = map Num qs2
    /\ Forall2 R qs1 qs2.
Proof.
  intros H. unfold laplacian_of.
  assert (Hy : forall y, In y (for_range 1 (h - 1)) -> (1 <= y < h - 1)%Z)
    by (intros y; apply in_for_range).
  induction (for_range 1 (h - 1)) as [|y ys IH].
  - exists [], []. repeat split; constructor.
  - destruct (IH (fun z Hz => Hy z (or_intror Hz))) as [qs1 [qs2 [E1 [E2 HR]]]].
    destruct (@related_values R Z (fun x => lap_at d1 w x y) (fun x => lap_at d2 w x y)
                (for_range 1 (w - 1))) as [r1 [r2 [F1 [F2 HF]]]].
    { intros x Hx. apply in_for_range in Hx. apply H; [exact Hx|].
      apply Hy. now left. }
    exists (r1 ++ qs1), (r2 ++ qs2). cbn [flat_map].
    rewrite F1, F2, E1, E2, !map_app. repeat split. now apply Forall2_app.
Qed.

Lemma fold_plus_Qeq (qs1 qs2 : list Q) :
  Forall2 Qeq qs1 qs2 ->
  forall a b, a == b -> fold_left Qplus qs1 a == fold_left Qplus qs2 b.
Proof.
  induction 1 as [|x y l1 l2 Hxy _ IH]; intros a b Hab; cbn [fold_left]; [exact Hab|].
  apply IH. now rewrite Hab, Hxy.
Qed.

Lemma fold_sqdev_Qeq (m1 m2 : Q) (qs1 qs2 : list Q) :
  m1 == m2 -> Forall2 Qeq qs1 qs2 ->
  forall a b, a == b -> fold_left (sq_dev m1) qs1 a == fold_left (sq_dev m2) qs2 b.
Proof.
  intros Hm. induction 1 as [|x y l1 l2 Hxy _ IH]; intros a b Hab; cbn [fold_left];
    [exact Hab|].
  apply IH. unfold sq_dev. now rewrite Hab, Hxy, Hm.
Qed.

Lemma Qvariance_Qeq (qs1 qs2 : list Q) :
  Forall2 Qeq qs1 qs2 -> Qvariance qs1 == Qvariance qs2.
Proof.
  intros H. unfold Qvariance, Qmean. rewrite (Forall2_length H).
  apply Qdiv_comp; [| reflexivity].
  apply fold_sqdev_Qeq; [| exact H | reflexivity].
  apply Qdiv_comp; [| reflexivity]. apply fold_plus_Qeq; [exact H | reflexivity].
Qed.

Lemma Qle_bool_Qeq (a b : Q) : a == b -> Qle_bool 100 a = Qle_bool 100 b.
Proof.
  intros H. destruct (Qle_bool 100 a) eqn:Ea, (Qle_bool 100 b) eqn:Eb; try reflexivity.
  - apply Qle_bool_iff in Ea. rewrite H in Ea. apply Qle_bool_iff in Ea. congruence.
  - apply Qle_bool_iff in Eb. rewrite <- H in Eb. apply Qle_bool_iff in Eb. congruence.
Qed.

Lemma Qscore_Qeq (v1 v2 : Q) : v1 == v2 -> Qscore v1 == Qscore v2.
Proof.
  intros H. unfold Qscore.
  assert (Hs : v1 / 100 * 100 == v2 / 100 * 100) by now rewrite H.
  rewrite (Qle_bool_Qeq Hs). destruct (Qle_bool 100 (v2 / 100 * 100));
    [reflexivity | exact Hs].
Qed.

(** X15. The focus score does not depend on the brightness of a frame: two
    frames of the same size of which one has every sample higher by the same
    amount get the same score. *)
Theorem focus_score_ignores_brightness (image brighter : RawImage) (k : Z) :
  width brighter = width image -> height brighter = height image ->
  (3 <= width image)%Z -> (3 <= height image)%Z ->
  (width image * height image <= Z.of_nat (List.length (data image)))%Z ->
  (forall i b, nth_error (data image) i = Some b ->
               exists b', nth_error (data brighter) i = Some b'
                          /\ Z.of_N (Byte.to_N b') = (Z.of_N (Byte.to_N b) + k)%Z) ->
  exists q q',
    focusScoreOf image = Num q /\ focusScoreOf brighter = Num q' /\ q == q'.
Proof.
  intros Hw Hh Hw3 Hh3 Hlen Hk.
  destruct (@related_laplacians Qeq (data image) (data brighter)
              (width image) (height image)) as [qs [qs' [E [E' HR]]]].
  { intros x y Hx Hy.
    assert (Hin : forall i,
               (exists dy dx, (-1 <= dy <= 1)%Z /\ (-1 <= dx <= 1)%Z /\
                              i = ((y + dy) * width image + (x + dx))%Z) ->
               exists z, buffer_at (data image) i = JS.of_Z z
                         /\ buffer_at (data brighter) i = JS.of_Z (z + k)).
    { intros i [dy [dx [Hdy [Hdx ->]]]].
      pose proof (@interior_index (width image) (height image) x y dy dx Hx Hy Hdy Hdx)
        as Hidx.
      unfold buffer_at.
      destruct (Z.ltb_spec ((y + dy) * width image + (x + dx)) 0) as [Hneg|_]; [lia|].
      destruct (nth_error (data image) (Z.to_nat ((y + dy) * width image + (x + dx))))
        as [b|] eqn:Eb.
      - destruct (Hk _ _ Eb) as [b' [-> Hb']]. eexists. split; [reflexivity|].
        now rewrite Hb'.
      - apply nth_error_None in Eb. lia. }
    unfold lap_at.
    destruct (Hin (y * width image + x)%Z) as [c [-> ->]]; [exists 0%Z, 0%Z; lia|].
    destruct (Hin ((y - 1) * width image + x)%Z) as [t [-> ->]];
      [exists (-1)%Z, 0%Z; lia|].
    destruct (Hin ((y + 1) * width image + x)%Z) as [b [-> ->]];
      [exists 1%Z, 0%Z; lia|].
    destruct (Hin (y * width image + (x - 1))%Z) as [l [-> ->]];
      [exists 0%Z, (-1)%Z; lia|].
    destruct (Hin (y * width image + (x + 1))%Z) as [r [-> ->]];
      [exists 0%Z, 1%Z; lia|].
    unfold JS.of_Z. cbv [JS.mul JS.add JS.Math_abs].
    eexists. eexists. split; [reflexivity|]. split; [reflexivity|].
    apply Qabs_wd. rewrite !inject_Z_plus. ring. }
  assert (Hne : qs <> []).
  { intros ->. apply (laplacian_nonempty (data image) Hw3 Hh3). exact E. }
  assert (Hne' : qs' <> []).
  { intros ->. inversion HR. subst. now apply Hne. }
  exists (Qscore (Qvariance qs)), (Qscore (Qvariance qs')).
  unfold focusScoreOf. rewrite Hw, Hh, E, E'.
  rewrite (variance_of_rational Hne), (variance_of_rational Hne').
  rewrite !score_of_rational_variance.
  split; [reflexivity|]. split; [reflexivity|].
  apply Qscore_Qeq, Qvariance_Qeq, HR.
Qed.

Lemma focus_score_ignores_brightness_witness :
  exists q q',
    focusScoreOf frame_4x3 = Num q /\ focusScoreOf frame_4x3_brighter = Num q' /\ q == q'.
Proof.
  apply (@focus_score_ignores_brightness frame_4x3 frame_4x3_brighter 16);
    try reflexivity; try (simpl; lia).
  intros i b H.
  do 12 (destruct i as [|i]; [injection H as <-; eexists; split; reflexivity |]).
  destruct i; discriminate H.
Defined.

(** ** Scanning a folder *)












Lemma includes_In (l : list string) (s : string) :
  includes l s = true <-> In s l.
Proof.
  unfold includes. rewrite existsb_exists. split.
  - intros [x [Hx E]]. apply String.eqb_eq in E. now subst.
  - intros H. exists s. split; [exact H | apply String.eqb_refl].
Qed.

Lemma lastIndexOf_absent (c : ascii) (s : string) :
  has_char c s = false -> lastIndexOf c s = (-1)%Z.
Proof.
  induction s as [|a s IH]; simpl; [reflexivity|].
  intros H. apply orb_false_iff in H as [Ha Hs].
  now rewrite (IH Hs), Ha.
Qed.

Lemma lastIndexOf_last (c : ascii) (a b : string) :
  has_char c b = false ->
  lastIndexOf c (a ++ String c b) = Z.of_nat (String.length a).
Proof.
  intros Hb. induction a as [|x a IH].
  - simpl. now rewrite (lastIndexOf_absent _ _ Hb), Ascii.eqb_refl.
  - cbn [String.append lastIndexOf String.length]. rewrite IH.
    destruct (Z.leb_spec 0 (Z.of_nat (String.length a))); lia.
Qed.

(** A string has no [c], or splits at its last [c]. *)
Lemma last_occurrence (c : ascii) (s : string) :
  has_char c s = false
  \/ exists a b, s = (a ++ String c b)%string /\ has_char c b = false.
Proof.
  induction s as [|x s IH]; [now left|].
  destruct IH as [Hs | [a [b [-> Hb]]]].
  - destruct (Ascii.eqb x c) eqn:E.
    + right. apply Ascii.eqb_eq in E. subst x. now exists EmptyString, s.
    + left. simpl. now rewrite E.
  - right. now exists (String x a), b.
Qed.

Lemma ascii_lower_app (a b : string) :
  ascii_lower (a ++ b) = (ascii_lower a ++ ascii_lower b)%string.
Proof. induction a as [|x a IH]; simpl; [reflexivity | now rewrite IH]. Qed.

Lemma ascii_lower_length (s : string) :
  String.length (ascii_lower s) = String.length s.
Proof. induction s as [|x s IH]; simpl; [reflexivity | now rewrite IH]. Qed.

Lemma drop_app (a b : string) : drop (String.length a) (a ++ b) = b.
Proof. induction a as [|x a IH]; simpl; [now destruct b | exact IH]. Qed.

Lemma ascii_lower_char_dot (x : ascii) :
  Ascii.eqb (ascii_lower_char x) "." = Ascii.eqb x ".".
Proof. destruct x as [[] [] [] [] [] [] [] []]; reflexivity. Qed.

Lemma ascii_lower_has_dot (s : string) :
  has_char "." (ascii_lower s) = has_char "." s.
Proof.
  induction s as [|x s IH]; simpl; [reflexivity|].
  now rewrite IH, ascii_lower_char_dot.
Qed.

Lemma extension_has_one_dot (tail : string) :
  In ("." ++ ascii_lower tail)%string VIDEO_EXTENSIONS -> has_char "." tail = false.
Proof.
  intros H. rewrite <- ascii_lower_has_dot.
  simpl in H.
  repeat (destruct H as [H | H]; [injection H as <-; reflexivity |]).
  contradiction.
Qed.

Section Extension.

Variable toLowerCase : string -> string.

(** On a string in ASCII, [toLowerCase] changes the letters A to Z only. *)
Hypothesis toLowerCase_ascii :
  forall s, ascii_only s -> toLowerCase s = ascii_lower s.

Lemma extension_after_last_dot (stem tail : string) :
  ascii_only (stem ++ "." ++ tail) ->
  has_char "." tail = false ->
  extension_of toLowerCase (stem ++ "." ++ tail) = ("." ++ ascii_lower tail)%string.
Proof.
  intros Hascii Htail. unfold extension_of, substring_from.
  rewrite (toLowerCase_ascii _ Hascii).
  change ("." ++ tail)%string with (String "." tail).
  rewrite (lastIndexOf_last _ stem _ Htail).
  rewrite Z.max_r by lia. rewrite Nat2Z.id.
  rewrite ascii_lower_app, <- (ascii_lower_length stem).
  now rewrite drop_app.
Qed.

Lemma extension_without_dot (entry_name : string) :
  ascii_only entry_name ->
  has_char "." entry_name = false ->
  extension_of toLowerCase entry_name = ascii_lower entry_name.
Proof.
  intros Hascii Hname. unfold extension_of, substring_from.
  now rewrite (toLowerCase_ascii _ Hascii), (lastIndexOf_absent _ _ Hname).
Qed.

(** X17. For a file name in ASCII, the scan takes the file for a video
    exactly when the name ends with a dot followed by mp4, mov, avi, mxf, m4v
    or mkv in any mix of upper and lower case; a name without a dot is never
    taken, and a name that is only the extension is. *)
Theorem video_extension_accepted (entry_name : string) :
  ascii_only entry_name ->
  is_video_name toLowerCase entry_name = true
  <-> exists stem tail,
        entry_name = (stem ++ "." ++ tail)%string
        /\ In ("." ++ ascii_lower tail)%string VIDEO_EXTENSIONS.
Proof.
  intros Hascii. unfold is_video_name. rewrite includes_In. split.
  - intros H. destruct (last_occurrence "." entry_name) as [Hno | [a [b [E Hb]]]].
    + exfalso. rewrite (@extension_without_dot _ Hascii Hno) in H.
      rewrite <- ascii_lower_has_dot in Hno.
      simpl in H.
      repeat (destruct H as [H | H]; [rewrite <- H in Hno; discriminate Hno |]).
      contradiction.
    + change (String "." b) with ("." ++ b)%string in E.
      exists a, b. split; [exact E|].
      subst entry_name.
      now rewrite (@extension_after_last_dot a b Hascii Hb) in H.
  - intros [stem [tail [E H]]]. subst entry_name.
    now rewrite (@extension_after_last_dot stem tail Hascii (extension_has_one_dot _ H)).
Qed.


End Extension.

Lemma video_extension_accepted_witness :
  is_video_name ascii_lower "IMG_0042.MOV" = true
  <-> exists stem tail,
        "IMG_0042.MOV"%string = (stem ++ "." ++ tail)%string
        /\ In ("." ++ ascii_lower tail)%string VIDEO_EXTENSIONS.
Proof.
  apply (@video_extension_accepted ascii_lower (fun s _ => eq_refl) "IMG_0042.MOV").
  simpl. repeat split; apply Nat.ltb_lt; reflexivity.
Defined.

Section ScanFacts.

Variable path_join : string -> string -> string.
Variable path_basename : string -> string.
Variable path_dirname : string -> string.
Variable path_relative : string -> string -> string.
Variable ffprobe : string -> Result ProbeData.
Variable toLowerCase : string -> string.

Local Abbreviation scan_file :=
  (scan_file path_basename path_dirname path_relative ffprobe).
Local Abbreviation scan_entry :=
  (scan_entry path_join path_basename path_dirname path_relative ffprobe toLowerCase).
Local Abbreviation scan_entries :=
  (scan_entries path_join path_basename path_dirname path_relative ffprobe toLowerCase).
Local Abbreviation scanVideos :=
  (scanVideos path_join path_basename path_dirname path_relative ffprobe toLowerCase).
Local Abbreviation video_paths := (video_paths path_join toLowerCase).
Local Abbreviation probed_file :=
  (probed_file path_basename path_dirname path_relative ffprobe).
Local Abbreviation scan_paths :=
  (scan_paths path_basename path_dirname path_relative ffprobe).

(** The nested call of [scanDirectory] is the loop on the listing. *)
Lemma scan_entry_listed (folderPath dirPath entry_name : string)
    (entries : list Dirent) (st : ScanState) :
  scan_entry folderPath dirPath (DirEntry entry_name (Ok entries)) st
  = scan_entries folderPath (path_join dirPath entry_name) entries st.
Proof.
  revert st. induction entries as [|e rest IH]; intros st; [reflexivity|].
  simpl.
  destruct (scan_entry folderPath (path_join dirPath entry_name) e st) as [[[]|error] st'];
    [apply IH | reflexivity].
Qed.

Lemma scan_file_pushes (folderPath fullPath : string) (st : ScanState) :
  videoFiles (scan_file folderPath fullPath st)
  = videoFiles st ++ probed_file folderPath fullPath
  /\ probed (scan_file folderPath fullPath st) = probed st ++ [fullPath].
Proof.
  unfold scan_file, probed_file, getVideoMetadata, metadata_of_probe.
  destruct (ffprobe fullPath) as [metadata|error]; cbn [videoFiles probed];
    [| now rewrite app_nil_r].
  destruct (find _ (streams metadata)) as [videoStream|]; cbn [videoFiles probed];
    [| now rewrite app_nil_r].
  split; [| reflexivity]. do 2 f_equal.
  cbn [meta_duration meta_width meta_height meta_fps meta_codec].
  f_equal.
  - now destruct (path_relative folderPath (path_dirname fullPath)).
  - destruct (codec_name videoStream) as [[|c n]|]; reflexivity.
Qed.

Lemma scan_paths_pushes (folderPath : string) (paths : list string) (st : ScanState) :
  videoFiles (scan_paths folderPath paths st)
  = videoFiles st ++ flat_map (probed_file folderPath) paths
  /\ probed (scan_paths folderPath paths st) = probed st ++ paths.
Proof.
  unfold scan_paths.
  revert st. induction paths as [|p paths IH]; intros st; cbn [fold_left flat_map].
  - now rewrite !app_nil_r.
  - destruct (IH (scan_file folderPath p st)) as [-> ->].
    destruct (scan_file_pushes folderPath p st) as [-> ->].
    now rewrite <- !app_assoc.
Qed.

Lemma scan_paths_app (folderPath : string) (a b : list string) (st : ScanState) :
  scan_paths folderPath (a ++ b) st = scan_paths folderPath b (scan_paths folderPath a st).
Proof. apply fold_left_app. Qed.

(** A readable entry is scanned to the end: its video paths are probed one
    after the other. *)
Lemma scan_entry_readable (folderPath : string) (entry : Dirent) :
  forall dirPath st,
    readable entry = true ->
    scan_entry folderPath dirPath entry st
    = (Ok tt, scan_paths folderPath (video_paths dirPath entry) st).
Proof.
  induction entry as [entry_name entries IH | | entry_name | ] using Dirent_nested_ind;
    intros dirPath st Hr; try discriminate Hr; try reflexivity.
  - rewrite scan_entry_listed. simpl in Hr. simpl.
    generalize (path_join dirPath entry_name) as sub. intros sub.
    revert st. induction IH as [|e rest He _ IHrest]; intros st; [reflexivity|].
    cbn [forallb] in Hr. apply andb_true_iff in Hr as [Hre Hrest].
    simpl.
    rewrite (He sub st Hre), scan_paths_app. now apply IHrest.
  - simpl.
    destruct (is_video_name toLowerCase entry_name); reflexivity.
Qed.

Lemma scan_entries_readable (folderPath dirPath : string) (entries : list Dirent)
    (st : ScanState) :
  forallb readable entries = true ->
  scan_entries folderPath dirPath entries st
  = (Ok tt, scan_paths folderPath (flat_map (video_paths dirPath) entries) st).
Proof.
  revert st. induction entries as [|e rest IH]; intros st Hr; [reflexivity|].
  cbn [forallb] in Hr. apply andb_true_iff in Hr as [Hre Hrest].
  simpl.
  rewrite (scan_entry_readable folderPath e dirPath st Hre), scan_paths_app.
  now apply IH.
Qed.

(** An entry with a directory that cannot be listed ends the scan with an
    error. *)
Lemma scan_entry_unreadable (folderPath : string) (entry : Dirent) :
  forall dirPath st,
    readable entry = false ->
    exists error st', scan_entry folderPath dirPath entry st = (Throw error, st').
Proof.
  induction entry as [entry_name entries IH | entry_name error | | ]
    using Dirent_nested_ind;
    intros dirPath st Hr; try discriminate Hr.
  - rewrite scan_entry_listed. cbn [readable] in Hr.
    generalize (path_join dirPath entry_name) as sub. intros sub.
    revert st. induction IH as [|e rest He _ IHrest]; intros st; [discriminate Hr|].
    cbn [forallb] in Hr. simpl.
    destruct (readable e) eqn:Hre.
    + rewrite (scan_entry_readable folderPath e sub st Hre). now apply IHrest.
    + destruct (He sub st eq_refl) as [error [st' ->]]. now exists error, st'.
  - now exists error, st.
Qed.

Lemma scan_entries_unreadable (folderPath dirPath : string) (entries : list Dirent)
    (st : ScanState) :
  forallb readable entries = false ->
  exists error st', scan_entries folderPath dirPath entries st = (Throw error, st').
Proof.
  revert st. induction entries as [|e rest IH]; intros st Hr; [discriminate Hr|].
  cbn [forallb] in Hr. simpl.
  destruct (readable e) eqn:Hre.
  - rewrite (scan_entry_readable folderPath e dirPath st Hre). now apply IH.
  - destruct (scan_entry_unreadable folderPath e dirPath st Hre) as [error [st' ->]].
    now exists error, st'.
Qed.



(** X19. The scan fails exactly when the folder, or a directory below it,
    cannot be listed; it then returns no file at all, whatever it had
    already found. *)
Theorem scan_fails_on_unreadable_directory (folderPath : string)
    (listing : Result (list Dirent)) :
  (exists files, fst (scanVideos folderPath listing) = Ok files)
  <-> exists entries, listing = Ok entries /\ forallb readable entries = true.
Proof.
  split.
  - intros [files H]. destruct listing as [entries|error]; [| discriminate H].
    exists entries. split; [reflexivity|].
    destruct (forallb readable entries) eqn:Hr; [reflexivity|].
    unfold scanVideos in H.
    destruct (scan_entries_unreadable folderPath folderPath entries
                {| videoFiles := []; probed := []; scan_errors := [] |} Hr)
      as [error [st' E]].
    rewrite E in H. discriminate H.
  - intros [entries [-> Hr]]. unfold scanVideos.
    rewrite (scan_entries_readable folderPath folderPath entries _ Hr).
    eexists. reflexivity.
Qed.

Lemma number_or_zero_not_NaN (value : option number) : number_or_zero value <> NaN.
Proof.
  destruct value as [[q| | |]|]; simpl; try discriminate.
  destruct (Qeq_bool q 0); discriminate.
Qed.

Lemma probed_file_fields (folderPath fullPath : string) (file : VideoFile.t) :
  In file (probed_file folderPath fullPath) ->
  VideoFile.id file = fullPath
  /\ VideoFile.path file = fullPath
  /\ VideoFile.thumbnail file = None
  /\ VideoFile.directory file <> ""%string
  /\ VideoFile.duration file <> NaN
  /\ VideoFile.width file <> NaN
  /\ VideoFile.height file <> NaN
  /\ VideoFile.codec file <> ""%string.
Proof.
  unfold probed_file.
  destruct (ffprobe fullPath) as [metadata|error]; [| intros []].
  destruct (find _ (streams metadata)) as [videoStream|]; [| intros []].
  intros [<- | []]. cbn.
  repeat split; try apply number_or_zero_not_NaN.
  - now destruct (path_relative folderPath (path_dirname fullPath)).
  - now destruct (codec_name videoStream) as [[|c n]|].
Qed.

(** X20. Every file that a scan returns has its full path as id and as
    path, was probed, has no thumbnail, a folder name and a codec name that
    are not empty, and a duration, a width and a height that are numbers:
    a missing or NaN value has become 0.  The frame rate has no such
    guard. *)
Theorem scanned_files_are_well_formed (folderPath : string)
    (listing : Result (list Dirent)) (files : list VideoFile.t) (st : ScanState)
    (file : VideoFile.t) :
  scanVideos folderPath listing = (Ok files, st) ->
  In file files ->
  VideoFile.id file = VideoFile.path file
  /\ In (VideoFile.id file) (probed st)
  /\ VideoFile.thumbnail file = None
  /\ VideoFile.directory file <> ""%string
  /\ VideoFile.duration file <> NaN
  /\ VideoFile.width file <> NaN
  /\ VideoFile.height file <> NaN
  /\ VideoFile.codec file <> ""%string.
Proof.
  intros Hscan Hin. destruct listing as [entries|error]; [| discriminate Hscan].
  unfold scanVideos in Hscan.
  destruct (forallb readable entries) eqn:Hr.
  - rewrite (scan_entries_readable folderPath folderPath entries _ Hr) in Hscan.
    injection Hscan as <- <-.
    destruct (scan_paths_pushes folderPath (flat_map (video_paths folderPath) entries)
                {| videoFiles := []; probed := []; scan_errors := [] |}) as [Hv Hp].
    cbn [videoFiles probed app] in Hv, Hp.
    rewrite Hv in Hin. rewrite Hp.
    apply in_flat_map in Hin as [fullPath [Hpath Hfile]].
    destruct (probed_file_fields _ _ _ Hfile) as [Hid [Hpa Hrest]].
    rewrite Hid, Hpa. split; [reflexivity|]. split; [exact Hpath | exact Hrest].
  - destruct (scan_entries_unreadable folderPath folderPath entries
                {| videoFiles := []; probed := []; scan_errors := [] |} Hr)
      as [error [st' E]].
    rewrite E in Hscan. discriminate Hscan.
Qed.


End ScanFacts.

Lemma scanned_files_are_well_formed_witness :
  VideoFile.id DemoScan.teaser = VideoFile.path DemoScan.teaser
  /\ In (VideoFile.id DemoScan.teaser)
        (probed (snd (DemoScan.scanVideos "/wedding" (Ok DemoScan.entries))))
  /\ VideoFile.thumbnail DemoScan.teaser = None
  /\ VideoFile.directory DemoScan.teaser <> ""%string
  /\ VideoFile.duration DemoScan.teaser <> NaN
  /\ VideoFile.width DemoScan.teaser <> NaN
  /\ VideoFile.height DemoScan.teaser <> NaN
  /\ VideoFile.codec DemoScan.teaser <> ""%string.
Proof.
  apply (@scanned_files_are_well_formed DemoScan.path_join DemoScan.path_basename
           DemoScan.path_dirname DemoScan.path_relative DemoScan.ffprobe ascii_lower
           "/wedding" (Ok DemoScan.entries)
           (match fst (DemoScan.scanVideos "/wedding" (Ok DemoScan.entries)) with
            | Ok files => files
            | Throw _ => []
            end)
           (snd (DemoScan.scanVideos "/wedding" (Ok DemoScan.entries)))
           DemoScan.teaser).
  - vm_compute. reflexivity.
  - vm_compute. right. left. reflexivity.
Defined.


(** ** The welcome screen *)

(** A run that stores no clips resets both flags. *)
Ltac without_clips :=
  cbn;
  split; [reflexivity |];
  split; [intros clips H; intuition discriminate |];
  split; [intros H; discriminate H | intros [clips H]; intuition discriminate].

(** X21. When the handler of the welcome screen has run, the store is never
    left analysing; the clips are stored only after a folder was chosen, the
    scan found at least one file and the analysis answered; and the button
    is left loading exactly in that case, every other path resets it. *)
Theorem handleSelectFolder_flags (selectFolder : Result (option string))
    (scanVideos : string -> Result (list VideoFile.t))
    (analyzeVideos : list VideoFile.t -> Result (list VideoClip.t)) :
  let effects := handleSelectFolder selectFolder scanVideos analyzeVideos in
  isAnalyzing_after effects = false
  /\ (forall clips, In (SetClips clips) effects ->
        exists folderPath videoFiles,
          selectFolder = Ok (Some folderPath)
          /\ scanVideos folderPath = Ok videoFiles
          /\ videoFiles <> []
          /\ analyzeVideos videoFiles = Ok clips)
  /\ (isLoading_after effects = true <-> exists clips, In (SetClips clips) effects).
Proof.
  unfold handleSelectFolder.
  destruct selectFolder as [[[|c folderPath]|]|error]; try without_clips.
  destruct (scanVideos (String c folderPath)) as [[|f videoFiles]|error] eqn:Escan;
    try without_clips.
  cbn [List.length Nat.eqb].
  destruct (analyzeVideos (f :: videoFiles)) as [clips|error] eqn:Eanalyze;
    try without_clips.
  cbn. split; [reflexivity|]. split.
  - intros clips' H.
    destruct H as [H|[H|[H|[H|[H|[]]]]]]; try discriminate H.
    injection H as <-.
    exists (String c folderPath), (f :: videoFiles).
    split; [reflexivity|]. split; [exact Escan|]. split; [discriminate | exact Eanalyze].
  - split; [| reflexivity].
    intros _. exists clips. right. right. right. now left.
Qed.
